(** * The self-healing locator engine of [src/utils/healer.ts]

    A shallow embedding of the class [TestHealer] and of the part of the
    browser-automation library it talks to, followed by the properties of
    the engine.

    Conventions of the embedding.

    - A JavaScript string is a [string]; its characters are the code units
      below 256.  [undefined] and [null] are [None].
    - A JavaScript [Map] is an association list in insertion order with
      pairwise distinct keys ([JsMap]).
    - A JavaScript number that counts is a [nat] or a [Z]; the success
      rate is a double, a [spec_float] of the Standard Library with the
      parameters of binary64.
    - A Playwright [Locator] is the lazy description of a query: building
      one never talks to the browser and never throws.  Everything that
      talks to the browser ([isVisible], [getAttribute], [textContent],
      [waitFor]) is answered by a [Page], whose answers may depend on all
      that happened before (the [trace]).
    - The methods are computations in the monad [M], which threads the
      engine ([this]) and the trace of browser queries and [Logger] calls
      and lets a computation end in a thrown value; what was written before
      a throw stays written. *)

From Stdlib Require Import String Ascii List ZArith Bool Arith Lia Sorted Permutation.
From Stdlib Require Import DecimalString DecimalNat.
From Stdlib Require Import Floats.SpecFloat.
Import ListNotations.
Local Open Scope string_scope.
Local Open Scope list_scope.

Set Implicit Arguments.

(* ===================================================================== *)
(** ** JavaScript strings *)
(* ===================================================================== *)

Module JsString.

(** Truthiness of a string: every string but the empty one. *)
Definition truthy (s : string) : bool :=
  match s with
  | EmptyString => false
  | String _ _ => true
  end.

(** White space of ECMAScript among the code units below 256:
    TAB, LF, VT, FF, CR, SP and NBSP. *)
Definition is_white_space (c : ascii) : bool :=
  let n := nat_of_ascii c in
  (((9 <=? n) && (n <=? 13)) || (n =? 32) || (n =? 160))%nat.

(** [s.trimStart()] *)
Fixpoint trimStart (s : string) : string :=
  match s with
  | EmptyString => EmptyString
  | String c rest => if is_white_space c then trimStart rest else s
  end.

(** [s.trimEnd()] *)
Fixpoint trimEnd (s : string) : string :=
  match s with
  | EmptyString => EmptyString
  | String c rest =>
      match trimEnd rest with
      | EmptyString => if is_white_space c then EmptyString else String c EmptyString
      | rest' => String c rest'
      end
  end.

(** [s.trim()] *)
Definition trim (s : string) : string := trimEnd (trimStart s).

(** [s.split(sep)] for a separator of one character: the pieces between
    the separators, empty pieces kept; the pieces of the empty string are
    the one empty piece. *)
Fixpoint split (sep : ascii) (s : string) : list string :=
  match s with
  | EmptyString => [EmptyString]
  | String c rest =>
      if Ascii.eqb c sep then EmptyString :: split sep rest
      else match split sep rest with
           | [] => [String c EmptyString]
           | piece :: pieces => String c piece :: pieces
           end
  end.

(** [a.join(sep)] *)
Fixpoint join (sep : string) (pieces : list string) : string :=
  match pieces with
  | [] => EmptyString
  | [p] => p
  | p :: rest => (p ++ sep ++ join sep rest)%string
  end.

(** [String(n)] for a count. *)
Definition of_nat (n : nat) : string := NilEmpty.string_of_uint (Nat.to_uint n).

End JsString.

(* ===================================================================== *)
(** ** JavaScript [Map] with string keys *)
(* ===================================================================== *)

Module JsMap.

Section WithValue.
Variable V : Type.

(** Entries in insertion order. *)
Definition t := list (string * V).

Definition empty : t := [].

(** [m.get(k)] *)
Fixpoint get (k : string) (m : t) : option V :=
    match m with
    | [] => None
    | (k', v) :: rest => if String.eqb k k' then Some v else get k rest
    end.

(** [m.has(k)] *)
Definition has (k : string) (m : t) : bool :=
    match get k m with
    | Some _ => true
    | None => false
    end.

(** [m.set(k, v)]: an existing key keeps its place and takes the new
      value, a new key goes last. *)
Fixpoint set (k : string) (v : V) (m : t) : t :=
    match m with
    | [] => [(k, v)]
    | (k', v') :: rest =>
        if String.eqb k k' then (k', v) :: rest else (k', v') :: set k v rest
    end.

(** [m.size] *)
Definition size (m : t) : nat := length m.

(** [Array.from(m.values())] *)
Definition values (m : t) : list V := map snd m.

(** [Array.from(m.keys())] *)
Definition keys (m : t) : list string := map fst m.

(** [m.clear()] leaves the empty map. *)
Definition clear (m : t) : t := [].

End WithValue.

Arguments empty {V}.

End JsMap.

(* ===================================================================== *)
(** ** Data model *)
(* ===================================================================== *)

(** [LocatorStrategy['type']] *)
Inductive StrategyType : Type :=
| css | xpath | text | role | testId | label | placeholder.

(** The string behind each member of the union. *)
Definition type_name (t : StrategyType) : string :=
  match t with
  | css => "css"
  | xpath => "xpath"
  | text => "text"
  | role => "role"
  | testId => "testId"
  | label => "label"
  | placeholder => "placeholder"
  end.

(** [interface LocatorStrategy] *)
Record LocatorStrategy : Type := {
  type : StrategyType;
  value : string;
  priority : Z
}.

(** [interface HealingResult]; the optional fields are options. *)
Record HealingResult : Type := {
  success : bool;
  originalLocator : string;
  healedLocator : option string;
  strategy : option string;
  attempts : nat
}.

(** [class TestHealer]: its two private fields. *)
Record TestHealer : Type := {
  healingHistory : JsMap.t HealingResult;
  locatorCache : JsMap.t string
}.

(** [new TestHealer()] *)
Definition new_TestHealer : TestHealer :=
  {| healingHistory := JsMap.empty; locatorCache := JsMap.empty |}.

(* ===================================================================== *)
(** ** The browser: locators, queries and the page *)
(* ===================================================================== *)

(** A Playwright [Locator]: the description of a query, built by the
    methods of [Page] and narrowed by [first()]. *)
Inductive Locator : Type :=
| page_locator (selector : string)
| page_getByTestId (testId : string)
| page_getByText (text : string) (exact : bool)
| page_getByRole (role : string)
| page_getByLabel (text : string)
| page_getByPlaceholder (text : string)
| first (l : Locator).

(** The calls that reach the browser. *)
Inductive Query : Type :=
| isVisible (l : Locator) (timeout : option Z)
| getAttribute (l : Locator) (name : string)
| textContent (l : Locator)
| waitFor (l : Locator) (timeout : Z) (state : string).

Inductive LogLevel : Type := info | warn | error | debug.

(** What a run leaves behind outside the engine. *)
Inductive Event : Type :=
| Asked (q : Query)
| Logged (level : LogLevel) (message : string).

Definition Trace := list Event.

(** A thrown value: a rejection that came from the browser, carried
    unchanged, or an [Error] object made by [new Error(message)]. *)
Inductive Thrown : Type :=
| Rejection (reason : string)
| NewError (message : string).

(** How a promise, or a call, ends. *)
Inductive Outcome (A : Type) : Type :=
| Fulfilled (a : A)
| Rejected (e : Thrown).

Arguments Fulfilled {A} a.
Arguments Rejected {A} e.

(** The page: what the browser answers to each query after a given
    history.  A rejection of the browser carries its reason. *)
Record Page : Type := {
  answer_isVisible : Trace -> Locator -> option Z -> string + bool;
  answer_getAttribute : Trace -> Locator -> string -> string + option string;
  answer_textContent : Trace -> Locator -> string + option string;
  answer_waitFor : Trace -> Locator -> Z -> string -> string + unit
}.

Definition outcome_of {A : Type} (r : string + A) : Outcome A :=
  match r with
  | inl reason => Rejected (Rejection reason)
  | inr a => Fulfilled a
  end.

(* ===================================================================== *)
(** ** The monad of the methods *)
(* ===================================================================== *)

Record World : Type := {
  this : TestHealer;
  trace : Trace
}.

Definition M (A : Type) : Type := World -> Outcome A * World.

Definition ret {A : Type} (a : A) : M A := fun w => (Fulfilled a, w).

Definition throw {A : Type} (e : Thrown) : M A := fun w => (Rejected e, w).

Definition bind {A B : Type} (c : M A) (k : A -> M B) : M B :=
  fun w =>
    match c w with
    | (Fulfilled a, w') => k a w'
    | (Rejected e, w') => (Rejected e, w')
    end.

(** [try { c } catch (e) { handler(e) }] *)
Definition try_catch {A : Type} (c : M A) (handler : Thrown -> M A) : M A :=
  fun w =>
    match c w with
    | (Fulfilled a, w') => (Fulfilled a, w')
    | (Rejected e, w') => handler e w'
    end.

(** [promise.catch(() => fallback)] *)
Definition catch_with {A : Type} (c : M A) (fallback : A) : M A :=
  try_catch c (fun _ => ret fallback).

Declare Scope healer_scope.
Delimit Scope healer_scope with healer.
Notation "x <- c ;; k" := (bind c (fun x => k))
  (at level 61, c at next level, right associativity) : healer_scope.
Notation "c ;; k" := (bind c (fun _ => k))
  (at level 61, right associativity) : healer_scope.
Local Open Scope healer_scope.

(** One event more on the trace. *)
Definition emit (ev : Event) : M unit :=
  fun w => (Fulfilled tt, {| this := this w; trace := trace w ++ [ev] |}).

(** A query to the browser: answered from the history so far, then
    recorded. *)
Definition ask {A : Type} (q : Query) (answer : Trace -> string + A) : M A :=
  fun w =>
    (outcome_of (answer (trace w)),
     {| this := this w; trace := trace w ++ [Asked q] |}).

Definition locator_isVisible (page : Page) (l : Locator) (timeout : option Z) : M bool :=
  ask (isVisible l timeout) (fun tr => answer_isVisible page tr l timeout).

Definition locator_getAttribute (page : Page) (l : Locator) (name : string)
  : M (option string) :=
  ask (getAttribute l name) (fun tr => answer_getAttribute page tr l name).

Definition locator_textContent (page : Page) (l : Locator) : M (option string) :=
  ask (textContent l) (fun tr => answer_textContent page tr l).

Definition locator_waitFor (page : Page) (l : Locator) (timeout : Z) (state : string)
  : M unit :=
  ask (waitFor l timeout state) (fun tr => answer_waitFor page tr l timeout state).

(** [Logger.info], [Logger.warn], [Logger.error], [Logger.debug] *)
Definition Logger (level : LogLevel) (message : string) : M unit :=
  emit (Logged level message).

(** Reads and writes of the two fields of [this]. *)
Definition get_this : M TestHealer := fun w => (Fulfilled (this w), w).

Definition locatorCache_set (k v : string) : M unit :=
  fun w =>
    (Fulfilled tt,
     {| this := {| healingHistory := healingHistory (this w);
                   locatorCache := JsMap.set k v (locatorCache (this w)) |};
        trace := trace w |}).

Definition healingHistory_set (k : string) (r : HealingResult) : M unit :=
  fun w =>
    (Fulfilled tt,
     {| this := {| healingHistory := JsMap.set k r (healingHistory (this w));
                   locatorCache := locatorCache (this w) |};
        trace := trace w |}).

Definition locatorCache_clear : M unit :=
  fun w =>
    (Fulfilled tt,
     {| this := {| healingHistory := healingHistory (this w);
                   locatorCache := JsMap.clear (locatorCache (this w)) |};
        trace := trace w |}).

(* ===================================================================== *)
(** ** [generateAlternativeStrategies] *)
(* ===================================================================== *)

(** The character U+0022, the quotation mark. *)
Definition double_quote : ascii := ascii_of_nat 34.

(** [a.push(x)] *)
Definition push {A : Type} (a : list A) (x : A) : list A := a ++ [x].

(** What the eight reads of the element gave; a read that was rejected
    counts as [null]. *)
Record ElementAttributes : Type := {
  attr_id : option string;
  attr_class : option string;
  attr_name : option string;
  attr_data_testid : option string;
  attr_aria_label : option string;
  attr_placeholder : option string;
  text_content : option string;
  attr_role : option string
}.

(** [if (v) { ... }] on a [string | null]: the body runs on a non-empty
    string only. *)
Definition if_truthy {A : Type} (o : option string) (body : string -> A -> A) (acc : A) : A :=
  match o with
  | Some v => if JsString.truthy v then body v acc else acc
  | None => acc
  end.

(** "Build alternative strategies based on available attributes": the
    eight conditional pushes, in the order of the source. *)
Definition build_strategies (a : ElementAttributes) : list LocatorStrategy :=
  let strategies := [] in
  let strategies :=
    if_truthy (attr_data_testid a)
      (fun v acc => push acc {| type := testId; value := v; priority := 1 |})
      strategies in
  let strategies :=
    if_truthy (attr_id a)
      (fun v acc => push acc {| type := css; value := ("#" ++ v)%string; priority := 2 |})
      strategies in
  let strategies :=
    if_truthy (attr_name a)
      (fun v acc =>
         push acc {| type := css;
                     value := ("[name=" ++ String double_quote (v ++ String double_quote "]"))%string;
                     priority := 3 |})
      strategies in
  let strategies :=
    if_truthy (attr_aria_label a)
      (fun v acc => push acc {| type := label; value := v; priority := 4 |})
      strategies in
  let strategies :=
    if_truthy (attr_placeholder a)
      (fun v acc => push acc {| type := placeholder; value := v; priority := 5 |})
      strategies in
  let strategies :=
    if_truthy (attr_role a)
      (fun v acc => push acc {| type := role; value := v; priority := 6 |})
      strategies in
  let strategies :=
    if_truthy (text_content a)
      (fun v acc =>
         if JsString.truthy (JsString.trim v)
         then push acc {| type := text; value := JsString.trim v; priority := 7 |}
         else acc)
      strategies in
  let strategies :=
    if_truthy (attr_class a)
      (fun v acc =>
         let classes := filter JsString.truthy (JsString.split " "%char v) in
         if (0 <? length classes)%nat
         then push acc {| type := css;
                          value := ("." ++ JsString.join "." classes)%string;
                          priority := 8 |}
         else acc)
      strategies in
  strategies.

(** [Array.prototype.sort(compare)]: a stable sort; an element goes before
    the first one it does not compare greater than. *)
Fixpoint sort_insert {A : Type} (compare : A -> A -> Z) (x : A) (sorted : list A) : list A :=
  match sorted with
  | [] => [x]
  | y :: rest =>
      if (compare x y <=? 0)%Z then x :: sorted
      else y :: sort_insert compare x rest
  end.

Definition Array_sort {A : Type} (compare : A -> A -> Z) (a : list A) : list A :=
  fold_right (sort_insert compare) [] a.

(** [(a, b) => a.priority - b.priority] *)
Definition by_priority (a b : LocatorStrategy) : Z := (priority a - priority b)%Z.

(** "Get element attributes": the eight reads, each with its
    [.catch(() => null)], in the order of the source. *)
Definition read_attributes (page : Page) (element : Locator) : M ElementAttributes :=
  id <- catch_with (locator_getAttribute page element "id") None ;;
  className <- catch_with (locator_getAttribute page element "class") None ;;
  name <- catch_with (locator_getAttribute page element "name") None ;;
  testid <- catch_with (locator_getAttribute page element "data-testid") None ;;
  ariaLabel <- catch_with (locator_getAttribute page element "aria-label") None ;;
  placeholder_ <- catch_with (locator_getAttribute page element "placeholder") None ;;
  text_ <- catch_with (locator_textContent page element) None ;;
  role_ <- catch_with (locator_getAttribute page element "role") None ;;
  ret {| attr_id := id; attr_class := className; attr_name := name;
         attr_data_testid := testid; attr_aria_label := ariaLabel;
         attr_placeholder := placeholder_; text_content := text_;
         attr_role := role_ |}.

(** [generateAlternativeStrategies(page, originalLocator, context)].
    Nothing inside its [try] throws here (locators are built lazily and
    every awaited call has its own [.catch]), so the handler that logs a
    warning is never entered. *)
Definition generateAlternativeStrategies
  (page : Page) (originalLocator : string) (context : option string)
  : M (list LocatorStrategy) :=
  let element := first (page_locator originalLocator) in
  visible <- catch_with (locator_isVisible page element None) false ;;
  if visible : bool then
    attributes <- read_attributes page element ;;
    ret (Array_sort by_priority (build_strategies attributes))
  else
    ret (Array_sort by_priority []).

(* ===================================================================== *)
(** ** [healLocator] *)
(* ===================================================================== *)

(** The [switch (strategy.type)] of the trial loop.  The seven members of
    the union are all handled, so its [default] is never taken. *)
Definition locator_for (strategy : LocatorStrategy) : Locator :=
  match type strategy with
  | testId => page_getByTestId (value strategy)
  | text => page_getByText (value strategy) false
  | role => page_getByRole (value strategy)
  | label => page_getByLabel (value strategy)
  | placeholder => page_getByPlaceholder (value strategy)
  | css | xpath => page_locator (value strategy)
  end.

(** How the [for] loop over the strategies ends: by its [return], or by
    running out of strategies with the count of attempts so far. *)
Inductive LoopExit : Type :=
| Returns (result : HealingResult)
| FallsThrough (attempts : nat).

(** The [for (const strategy of strategies)] loop. *)
Fixpoint trial_loop (page : Page) (originalLocator : string)
  (strategies : list LocatorStrategy) (attempts : nat) : M LoopExit :=
  match strategies with
  | [] => ret (FallsThrough attempts)
  | strategy :: rest =>
      let attempts := S attempts in
      let locator := locator_for strategy in
      visible <- catch_with (locator_isVisible page (first locator) (Some 2000%Z)) false ;;
      if visible : bool then
        let healed := value strategy in
        Logger info ("Successfully healed locator using "
                     ++ type_name (type strategy) ++ ": " ++ healed)%string ;;
        locatorCache_set originalLocator healed ;;
        let result := {| success := true;
                         originalLocator := originalLocator;
                         healedLocator := Some healed;
                         strategy := Some (type_name (type strategy));
                         attempts := attempts |} in
        healingHistory_set originalLocator result ;;
        ret (Returns result)
      else
        trial_loop page originalLocator rest attempts
  end.

(** [healLocator(page, originalLocator, elementContext)].  The cache is
    tested with [has] and read with [get]; [has] is true exactly when
    [get] gives a value, so the two are one [match]. *)
Definition healLocator
  (page : Page) (originalLocator : string) (elementContext : option string)
  : M HealingResult :=
  Logger info ("Attempting to heal locator: " ++ originalLocator)%string ;;
  self <- get_this ;;
  match JsMap.get originalLocator (locatorCache self) with
  | Some cachedLocator =>
      Logger info ("Using cached healed locator: " ++ cachedLocator)%string ;;
      ret {| success := true;
             originalLocator := originalLocator;
             healedLocator := Some cachedLocator;
             strategy := Some "cached";
             attempts := 0 |}
  | None =>
      strategies <- generateAlternativeStrategies page originalLocator elementContext ;;
      exit <- trial_loop page originalLocator strategies 0 ;;
      match exit with
      | Returns result => ret result
      | FallsThrough attempts =>
          let result := {| success := false;
                           originalLocator := originalLocator;
                           healedLocator := None;
                           strategy := None;
                           attempts := attempts |} in
          healingHistory_set originalLocator result ;;
          Logger error ("Failed to heal locator after " ++ JsString.of_nat attempts
                        ++ " attempts: " ++ originalLocator)%string ;;
          ret result
      end
  end.

(* ===================================================================== *)
(** ** [findElement] *)
(* ===================================================================== *)

(** The [options] argument of [findElement]. *)
Record FindOptions : Type := {
  opt_timeout : option Z;
  opt_enableHealing : option bool;
  opt_context : option string
}.

(** [options?.timeout || 5000]: a missing or zero timeout gives 5000. *)
Definition timeout_of (options : option FindOptions) : Z :=
  match options with
  | Some o =>
      match opt_timeout o with
      | Some t => if (t =? 0)%Z then 5000%Z else t
      | None => 5000%Z
      end
  | None => 5000%Z
  end.

(** [options?.enableHealing !== false] *)
Definition enableHealing_of (options : option FindOptions) : bool :=
  match options with
  | Some o =>
      match opt_enableHealing o with
      | Some false => false
      | _ => true
      end
  | None => true
  end.

(** [options?.context] *)
Definition context_of (options : option FindOptions) : option string :=
  match options with
  | Some o => opt_context o
  | None => None
  end.

(** [findElement(page, locator, options)] *)
Definition findElement (page : Page) (locator : string) (options : option FindOptions)
  : M Locator :=
  let timeout := timeout_of options in
  let enableHealing := enableHealing_of options in
  try_catch
    (let element := page_locator locator in
     locator_waitFor page (first element) timeout "visible" ;;
     ret element)
    (fun caught =>
       if negb enableHealing then throw caught
       else
         Logger warn ("Original locator failed, attempting to heal: " ++ locator)%string ;;
         healingResult <- healLocator page locator (context_of options) ;;
         match healedLocator healingResult with
         | Some healed =>
             if success healingResult && JsString.truthy healed then
               Logger info ("Using healed locator: " ++ healed)%string ;;
               ret (page_locator healed)
             else throw (NewError ("Could not heal locator: " ++ locator)%string)
         | None => throw (NewError ("Could not heal locator: " ++ locator)%string)
         end).

(* ===================================================================== *)
(** ** Numbers: the doubles of [getHealingStats] *)
(* ===================================================================== *)

Module Number.

(** IEEE 754 binary64. *)
Definition prec : Z := 53.
Definition emax : Z := 1024.

(** The double of an integer (exact below 2^53). *)
Definition of_Z (z : Z) : spec_float := binary_normalize prec emax z 0 false.

(** [x / y] and [x * y] on doubles. *)
Definition div (x y : spec_float) : spec_float := SFdiv prec emax x y.
Definition mul (x y : spec_float) : spec_float := SFmul prec emax x y.

(** [x.toFixed(2)] read as a count of hundredths: the integer [n] for
    which [n / 100 - x] is closest to zero, the larger one of two; the
    digits of the string are those of [n].  Only the doubles from 0 up are
    of use here; the others give [None]. *)
Definition toFixed2_hundredths (x : spec_float) : option Z :=
  match x with
  | S754_zero _ => Some 0%Z
  | S754_finite false m e =>
      if (0 <=? e)%Z then Some (Z.pos m * 100 * 2 ^ e)%Z
      else Some ((2 * 100 * Z.pos m + 2 ^ (- e)) / 2 ^ (- e + 1))%Z
  | _ => None
  end.

(** Two decimal digits. *)
Definition two_digits (n : Z) : string :=
  (JsString.of_nat (Z.to_nat (n / 10)) ++ JsString.of_nat (Z.to_nat (n mod 10)))%string.

(** The string that [toFixed(2)] writes for a count of hundredths: the
    whole part, a full stop, two digits. *)
Definition fixed2_string (n : Z) : string :=
  (JsString.of_nat (Z.to_nat (n / 100)) ++ "." ++ two_digits (n mod 100))%string.

(** [x.toFixed(2)]: the string. *)
Definition toFixed2 (x : spec_float) : option string :=
  option_map fixed2_string (toFixed2_hundredths x).

(** The value of a string of decimal digits, [None] on any other
    character. *)
Fixpoint digits_value (s : string) (acc : Z) : option Z :=
  match s with
  | EmptyString => Some acc
  | String c rest =>
      let d := nat_of_ascii c in
      if ((48 <=? d) && (d <=? 57))%nat
      then digits_value rest (10 * acc + Z.of_nat (d - 48))%Z
      else None
  end.

(** The part of a string before the first full stop, and the part
    after. *)
Fixpoint split_at_dot (s : string) : string * string :=
  match s with
  | EmptyString => (EmptyString, EmptyString)
  | String c rest =>
      if Ascii.eqb c "."%char then (EmptyString, rest)
      else let (before, after) := split_at_dot rest in (String c before, after)
  end.

(** [parseFloat(s)] on the strings that [toFixed] writes for doubles from
    0 up, digits, a full stop and digits: the double nearest to the
    decimal number, which is the quotient of two integers that are doubles
    themselves, divided as doubles. *)
Definition parseFloat (s : string) : option spec_float :=
  let (whole, fraction) := split_at_dot s in
  match digits_value (whole ++ fraction)%string 0 with
  | Some n => Some (div (of_Z n) (of_Z (10 ^ Z.of_nat (String.length fraction))))
  | None => None
  end.

(** The double nearest to [n / 100]. *)
Definition of_hundredths (n : Z) : spec_float := div (of_Z n) (of_Z 100).

End Number.

(* ===================================================================== *)
(** ** [getHealingStats], [getHealingHistory], [clearCache],
       [exportHealedLocators] *)
(* ===================================================================== *)

(** The object that [getHealingStats] returns.  [successRate] is [None]
    should [toFixed] or [parseFloat] leave the part modelled above. *)
Record HealingStats : Type := {
  totalAttempts : Z;
  successful : Z;
  failed : Z;
  successRate : option spec_float;
  cachedLocators : Z
}.

(** [getHealingStats()] *)
Definition getHealingStats (self : TestHealer) : HealingStats :=
  let total := Z.of_nat (JsMap.size (healingHistory self)) in
  let successful :=
    Z.of_nat (length (filter (fun r => success r) (JsMap.values (healingHistory self)))) in
  let failed := (total - successful)%Z in
  let successRate :=
    if (0 <? total)%Z
    then Number.mul (Number.div (Number.of_Z successful) (Number.of_Z total)) (Number.of_Z 100)
    else Number.of_Z 0 in
  {| totalAttempts := total;
     successful := successful;
     failed := failed;
     successRate :=
       match Number.toFixed2 successRate with
       | Some s => Number.parseFloat s
       | None => None
       end;
     cachedLocators := Z.of_nat (JsMap.size (locatorCache self)) |}.

(** [getHealingHistory()] *)
Definition getHealingHistory (self : TestHealer) : JsMap.t HealingResult :=
  healingHistory self.

(** [clearCache()] *)
Definition clearCache : M unit :=
  locatorCache_clear ;;
  Logger info "Healer cache cleared".

Module Exported.

(** An element of the array that [exportHealedLocators] returns. *)
Record t : Type := {
  original : string;
  healed : string;
  strategy : string
}.

End Exported.

(** The callback of [healingHistory.forEach] in [exportHealedLocators]. *)
Definition export_entry (exports : list Exported.t) (entry : string * HealingResult)
  : list Exported.t :=
  let (original, result) := entry in
  match healedLocator result, strategy result with
  | Some healed, Some kind =>
      if success result && JsString.truthy healed && JsString.truthy kind
      then push exports {| Exported.original := original;
                           Exported.healed := healed;
                           Exported.strategy := kind |}
      else exports
  | _, _ => exports
  end.

(** [exportHealedLocators()] *)
Definition exportHealedLocators : M (list Exported.t) :=
  self <- get_this ;;
  let exports := fold_left export_entry (healingHistory self) [] in
  Logger info ("Exported " ++ JsString.of_nat (length exports) ++ " healed locators")%string ;;
  ret exports.

(* ===================================================================== *)
(** ** The strategies that the pushes build, row by row *)
(* ===================================================================== *)

(** An attribute that is present and not empty. *)
Definition present (o : option string) : option string :=
  match o with
  | Some v => if JsString.truthy v then Some v else None
  | None => None
  end.

(** The text of the element when it is not blank, trimmed. *)
Definition non_blank_text (o : option string) : option string :=
  match o with
  | Some v => if JsString.truthy (JsString.trim v) then Some (JsString.trim v) else None
  | None => None
  end.

(** What the source takes for the classes of a class attribute, when
    there is at least one: [className.split(' ').filter(c => c)], the
    pieces, not empty, that single spaces separate. *)
Definition pushed_classes (o : option string) : option (list string) :=
  match o with
  | Some v =>
      match filter JsString.truthy (JsString.split " "%char v) with
      | [] => None
      | classes => Some classes
      end
  | None => None
  end.

(** The eight conditional pushes of the source as eight rows, each with
    its kind, its value and its priority; a row whose condition fails gives
    nothing. *)
Definition pushed_rows (a : ElementAttributes) : list (option LocatorStrategy) :=
  [ option_map (fun v => {| type := testId; value := v; priority := 1 |})
      (present (attr_data_testid a));
    option_map (fun v => {| type := css; value := ("#" ++ v)%string; priority := 2 |})
      (present (attr_id a));
    option_map
      (fun v => {| type := css;
                   value := ("[name=" ++ String double_quote v
                             ++ String double_quote "]")%string;
                   priority := 3 |})
      (present (attr_name a));
    option_map (fun v => {| type := label; value := v; priority := 4 |})
      (present (attr_aria_label a));
    option_map (fun v => {| type := placeholder; value := v; priority := 5 |})
      (present (attr_placeholder a));
    option_map (fun v => {| type := role; value := v; priority := 6 |})
      (present (attr_role a));
    option_map (fun v => {| type := text; value := v; priority := 7 |})
      (non_blank_text (text_content a));
    option_map
      (fun classes => {| type := css;
                         value := ("." ++ JsString.join "." classes)%string;
                         priority := 8 |})
      (pushed_classes (attr_class a)) ].

Definition row_strategy (row : option LocatorStrategy) : list LocatorStrategy :=
  match row with
  | Some s => [s]
  | None => []
  end.

(** One strategy for each row that applies, in the order of the pushes. *)
Definition pushed_strategies (a : ElementAttributes) : list LocatorStrategy :=
  flat_map row_strategy (pushed_rows a).

(** Ascending by priority, no two equal. *)
Definition ascending (l : list LocatorStrategy) : Prop :=
  StronglySorted (fun x y => (priority x < priority y)%Z) l.

(* ===================================================================== *)
(** ** Runs of the engine *)
(* ===================================================================== *)

(** The world with one more event. *)
Definition after (ev : Event) (w : World) : World :=
  {| this := this w; trace := trace w ++ [ev] |}.

(** The visibility check of the trial loop for one strategy, and what it
    sees after a given history ([false] when the check is rejected). *)
Definition probe (s : LocatorStrategy) : Event :=
  Asked (isVisible (first (locator_for s)) (Some 2000%Z)).

Definition seen_visible (page : Page) (tr : Trace) (s : LocatorStrategy) : bool :=
  match answer_isVisible page tr (first (locator_for s)) (Some 2000%Z) with
  | inr b => b
  | inl _ => false
  end.

(** No strategy of the list is seen visible when its turn comes. *)
Fixpoint none_visible (page : Page) (tr : Trace) (strategies : list LocatorStrategy) : bool :=
  match strategies with
  | [] => true
  | s :: rest => negb (seen_visible page tr s) && none_visible page (tr ++ [probe s]) rest
  end.

(** The calls a client can make on the engine.  The helpers [click],
    [fill], [getText] and [waitFor] are a call of [findElement] followed by
    one action on the page, which is an event elsewhere for the engine. *)
Inductive Call : Type :=
| call_healLocator (page : Page) (originalLocator : string) (elementContext : option string)
| call_findElement (page : Page) (locator : string) (options : option FindOptions)
| call_clearCache
| call_exportHealedLocators.

Definition run_call (c : Call) (w : World) : World :=
  match c with
  | call_healLocator page originalLocator elementContext =>
      snd (healLocator page originalLocator elementContext w)
  | call_findElement page locator options => snd (findElement page locator options w)
  | call_clearCache => snd (clearCache w)
  | call_exportHealedLocators => snd (exportHealedLocators w)
  end.

(** The worlds that calls on a new engine lead to; between two calls
    anything may happen to the page and the log. *)
Inductive reachable : World -> Prop :=
| reachable_new (tr : Trace) : reachable {| this := new_TestHealer; trace := tr |}
| reachable_call (c : Call) (w : World) : reachable w -> reachable (run_call c w)
| reachable_elsewhere (events : Trace) (w : World) :
    reachable w -> reachable {| this := this w; trace := trace w ++ events |}.

(** The invariant of the data model on a result: a success carries a
    healed locator and a strategy name, neither empty. *)
Definition result_ok (r : HealingResult) : Prop :=
  success r = true ->
  exists healed kind,
    healedLocator r = Some healed /\ healed <> EmptyString /\
    strategy r = Some kind /\ kind <> EmptyString.

(** The invariant of the engine. *)
Record well_formed (self : TestHealer) : Prop := {
  wf_cache_values :
    forall k v, In (k, v) (locatorCache self) -> v <> EmptyString;
  wf_history_values :
    forall k r, In (k, r) (healingHistory self) -> result_ok r;
  wf_cache_keys : NoDup (JsMap.keys (locatorCache self));
  wf_history_keys : NoDup (JsMap.keys (healingHistory self))
}.

(** The events that are queries to the browser. *)
Definition is_query (ev : Event) : bool :=
  match ev with
  | Asked _ => true
  | Logged _ _ => false
  end.

(** The eight reads of [read_attributes] as events. *)
Definition attribute_reads (element : Locator) : Trace :=
  [ Asked (getAttribute element "id");
    Asked (getAttribute element "class");
    Asked (getAttribute element "name");
    Asked (getAttribute element "data-testid");
    Asked (getAttribute element "aria-label");
    Asked (getAttribute element "placeholder");
    Asked (textContent element);
    Asked (getAttribute element "role") ].

(** The result that the trial loop returns for a winning strategy. *)
Definition result_of_win (originalLocator : string) (s : LocatorStrategy) (attempts : nat)
  : HealingResult :=
  {| success := true;
     originalLocator := originalLocator;
     healedLocator := Some (value s);
     strategy := Some (type_name (type s));
     attempts := attempts |}.

(** The result of a run that found nothing. *)
Definition result_of_exhaustion (originalLocator : string) (attempts : nat) : HealingResult :=
  {| success := false;
     originalLocator := originalLocator;
     healedLocator := None;
     strategy := None;
     attempts := attempts |}.

(** The result served from the cache. *)
Definition result_of_cache (originalLocator cachedLocator : string) : HealingResult :=
  {| success := true;
     originalLocator := originalLocator;
     healedLocator := Some cachedLocator;
     strategy := Some "cached";
     attempts := 0 |}.

(* ===================================================================== *)
(** ** Pages and worlds for the examples *)
(* ===================================================================== *)

(** The element that the selector ["#old"] finds: it carries a test id,
    an id and two classes, and has no text. *)
Definition old_element_attribute (name : string) : option string :=
  if String.eqb name "data-testid" then Some "submit"
  else if String.eqb name "id" then Some "real-id"
  else if String.eqb name "class" then Some "btn primary"
  else None.

Definition is_first_of (selector : string) (l : Locator) : bool :=
  match l with
  | first (page_locator s) => String.eqb s selector
  | _ => false
  end.

(** A page on which that element shows up too late for the wait of
    [findElement] and is there from then on, under ["#old"] and under its
    test id. *)
Definition late_page : Page :=
  {| answer_isVisible := fun _ l _ =>
       inr (match l with
            | first (page_locator s) => String.eqb s "#old"
            | first (page_getByTestId t) => String.eqb t "submit"
            | _ => false
            end);
     answer_getAttribute := fun _ l name =>
       inr (if is_first_of "#old" l then old_element_attribute name else None);
     answer_textContent := fun _ l =>
       inr (if is_first_of "#old" l then Some EmptyString else None);
     answer_waitFor := fun _ _ _ _ => inl "TimeoutError: Timeout 5000ms exceeded." |}.

(** A page on which the same element is seen under ["#old"] alone: none of
    the other ways to it finds anything visible. *)
Definition stubborn_page : Page :=
  {| answer_isVisible := fun _ l _ => inr (is_first_of "#old" l);
     answer_getAttribute := fun _ l name =>
       inr (if is_first_of "#old" l then old_element_attribute name else None);
     answer_textContent := fun _ l =>
       inr (if is_first_of "#old" l then Some EmptyString else None);
     answer_waitFor := fun _ _ _ _ => inl "TimeoutError: Timeout 5000ms exceeded." |}.

(** A new engine and nothing behind it. *)
Definition new_world : World := {| this := new_TestHealer; trace := [] |}.

(** The world after [healLocator(page, "#old")] on the late page. *)
Definition world_healed_once : World := snd (healLocator late_page "#old" None new_world).

(** [enableHealing: false] *)
Definition healing_disabled : option FindOptions :=
  Some {| opt_timeout := None; opt_enableHealing := Some false; opt_context := None |}.

(* ===================================================================== *)
(** ** Statements under test *)
(* ===================================================================== *)

(** After the call the ledger holds, under the original locator, the
    result that the call returned. *)
Definition ledger_holds_returned_result
  (page : Page) (originalLocator : string) (elementContext : option string) (w : World)
  : Prop :=
  match healLocator page originalLocator elementContext w with
  | (Fulfilled r, w') => JsMap.get originalLocator (healingHistory (this w')) = Some r
  | (Rejected _, _) => False
  end.

(** What the browser answers to the wait of [findElement] on the original
    locator: the direct resolution. *)
Definition direct_resolution
  (page : Page) (locator : string) (options : option FindOptions) (w : World)
  : string + unit :=
  answer_waitFor page (trace w) (first (page_locator locator)) (timeout_of options) "visible".

(** The world once that wait has been asked. *)
Definition world_after_wait
  (locator : string) (options : option FindOptions) (w : World) : World :=
  after (Asked (waitFor (first (page_locator locator)) (timeout_of options) "visible")) w.

(** The world in which [findElement] calls [healLocator]. *)
Definition world_at_healing
  (locator : string) (options : option FindOptions) (w : World) : World :=
  after (Logged warn ("Original locator failed, attempting to heal: " ++ locator)%string)
    (world_after_wait locator options w).

(** The strategy kinds with a query of their own. *)
Definition has_own_query (t : StrategyType) : bool :=
  match t with
  | testId | text | role | label | placeholder => true
  | css | xpath => false
  end.

(** An exported triple carries what a ledger entry recorded. *)
Definition exported_from (e : Exported.t) (entry : string * HealingResult) : Prop :=
  Exported.original e = fst entry
  /\ healedLocator (snd entry) = Some (Exported.healed e)
  /\ strategy (snd entry) = Some (Exported.strategy e).

(* ===================================================================== *)
(** ** The statistics as the specification words them *)
(* ===================================================================== *)

(** The number of entries of the ledger and the number of its successes. *)
Definition ledger_entries (self : TestHealer) : Z :=
  Z.of_nat (length (healingHistory self)).

Definition ledger_successes (self : TestHealer) : Z :=
  Z.of_nat (length (filter (fun entry => success (snd entry)) (healingHistory self))).

(** The integer nearest to [num / den], for [den > 0]: a tie goes up, or
    goes to the even neighbour. *)
Definition round_half_up (num den : Z) : Z := ((2 * num + den) / (2 * den))%Z.

Definition round_half_even (num den : Z) : Z :=
  let q := (num / den)%Z in
  let r := (num mod den)%Z in
  if (2 * r <? den)%Z then q
  else if (den <? 2 * r)%Z then (q + 1)%Z
  else if Z.even q then q else (q + 1)%Z.

(** The statistics with the success rate [round(100 * S / N, 2)], for a
    way of rounding to the nearest integer: the rate is a whole number of
    hundredths, the rounding of [10000 * S / N]. *)
Definition stats_as_claimed (round : Z -> Z -> Z) (self : TestHealer) : Prop :=
  let N := ledger_entries self in
  let S := ledger_successes self in
  let stats := getHealingStats self in
  totalAttempts stats = N
  /\ successful stats = S
  /\ failed stats = (N - S)%Z
  /\ cachedLocators stats = Z.of_nat (JsMap.size (locatorCache self))
  /\ successRate stats
     = Some (if (N =? 0)%Z then Number.of_Z 0
             else Number.of_hundredths (round (10000 * S)%Z N)).

(** A page on which every element is visible and carries the test id
    ["submit"], and a page on which elements are seen by the check without
    a timeout, that of synthesis, and by no other. *)
Definition willing_page : Page :=
  {| answer_isVisible := fun _ _ _ => inr true;
     answer_getAttribute := fun _ _ name =>
       inr (if String.eqb name "data-testid" then Some "submit" else None);
     answer_textContent := fun _ _ => inr None;
     answer_waitFor := fun _ _ _ _ => inl "TimeoutError: Timeout 5000ms exceeded." |}.

Definition unwilling_page : Page :=
  {| answer_isVisible := fun _ _ timeout =>
       inr (match timeout with None => true | Some _ => false end);
     answer_getAttribute := fun _ _ name =>
       inr (if String.eqb name "data-testid" then Some "submit" else None);
     answer_textContent := fun _ _ => inr None;
     answer_waitFor := fun _ _ _ _ => inl "TimeoutError: Timeout 5000ms exceeded." |}.

(** [healLocator] called on [total] locators, one after the other, the
    first [healed] of them on the willing page and the others on the
    unwilling one. *)
Definition heal_in_turn (healed : nat) (w : World) (i : nat) : World :=
  run_call
    (call_healLocator (if (i <? healed)%nat then willing_page else unwilling_page)
       ("#field-" ++ JsString.of_nat i)%string None)
    w.

Definition world_of_outcomes (healed total : nat) : World :=
  fold_left (heal_in_turn healed) (seq 0 total) new_world.

(* ===================================================================== *)
(** ** [getText] *)
(* ===================================================================== *)

(** [getText(page, locator, options)]: the text of the first element that
    [findElement] gives, the empty string for no text. *)
Definition getText (page : Page) (locator : string) (options : option FindOptions)
  : M string :=
  Logger info ("Getting text from element: " ++ locator)%string ;;
  element <- findElement page locator options ;;
  content <- locator_textContent page (first element) ;;
  ret (match content with
       | Some s => if JsString.truthy s then s else EmptyString
       | None => EmptyString
       end).

(* ===================================================================== *)
(** ** What the ledger and the cache hold *)
(* ===================================================================== *)

(** What the engine writes in the ledger under a key: the key itself as
    original locator and at most eight attempts; for a success, at least
    one attempt, the name of a kind other than [xpath] and a healed locator
    that is not empty; for a failure, no healed locator and no strategy. *)
Definition ledger_entry_ok (k : string) (r : HealingResult) : Prop :=
  originalLocator r = k
  /\ (attempts r <= 8)%nat
  /\ (success r = true ->
      (1 <= attempts r)%nat
      /\ exists t healed,
          t <> xpath
          /\ strategy r = Some (type_name t)
          /\ healedLocator r = Some healed
          /\ healed <> EmptyString)
  /\ (success r = false -> healedLocator r = None /\ strategy r = None).

(** Every entry of the ledger is of that shape, and every entry of the
    cache stands for a success of the ledger with the same healed
    locator. *)
Record consistent (self : TestHealer) : Prop := {
  consistent_ledger :
    forall k r, JsMap.get k (healingHistory self) = Some r -> ledger_entry_ok k r;
  consistent_cache :
    forall k v, JsMap.get k (locatorCache self) = Some v ->
      exists r,
        JsMap.get k (healingHistory self) = Some r
        /\ success r = true /\ healedLocator r = Some v
}.

(** The first events of a healing that is not served from the cache: the
    log line of [healLocator] and the visibility check of synthesis. *)
Definition synthesis_start (originalLocator : string) : Trace :=
  [ Logged info ("Attempting to heal locator: " ++ originalLocator)%string;
    Asked (isVisible (first (page_locator originalLocator)) None) ].

(** The events of a call of [findElement] that is served from the cache
    after its direct resolution failed. *)
Definition cached_find_events
  (locator : string) (options : option FindOptions) (cached : string) : Trace :=
  [ Asked (waitFor (first (page_locator locator)) (timeout_of options) "visible");
    Logged warn ("Original locator failed, attempting to heal: " ++ locator)%string;
    Logged info ("Attempting to heal locator: " ++ locator)%string;
    Logged info ("Using cached healed locator: " ++ cached)%string;
    Logged info ("Using healed locator: " ++ cached)%string ].

(** A page whose every query is rejected. *)
Definition broken_page : Page :=
  {| answer_isVisible := fun _ _ _ => inl "Error: Target page has been closed";
     answer_getAttribute := fun _ _ _ => inl "Error: Target page has been closed";
     answer_textContent := fun _ _ => inl "Error: Target page has been closed";
     answer_waitFor := fun _ _ _ _ => inl "Error: Target page has been closed" |}.

(** A page on which the element behind ["#old"] is seen under ["#old"]
    and under its id, not under its test id. *)
Definition id_page : Page :=
  {| answer_isVisible := fun _ l _ =>
       inr (is_first_of "#old" l || is_first_of "#real-id" l);
     answer_getAttribute := fun _ l name =>
       inr (if is_first_of "#old" l then old_element_attribute name else None);
     answer_textContent := fun _ l =>
       inr (if is_first_of "#old" l then Some EmptyString else None);
     answer_waitFor := fun _ _ _ _ => inl "TimeoutError: Timeout 5000ms exceeded." |}.

(** The three strategies that synthesis gives for that element. *)
Definition by_testid : LocatorStrategy :=
  {| type := testId; value := "submit"; priority := 1 |}.
Definition by_id : LocatorStrategy :=
  {| type := css; value := "#real-id"; priority := 2 |}.
Definition by_classes : LocatorStrategy :=
  {| type := css; value := ".btn.primary"; priority := 8 |}.

(** The events that are visibility probes of the trial loop: a visibility
    check with a timeout. *)
Definition is_probe (ev : Event) : bool :=
  match ev with
  | Asked (isVisible _ (Some _)) => true
  | _ => false
  end.

(** The world in which the synthesis of a healing started by [findElement]
    makes its visibility check. *)
Definition world_at_synthesis
  (locator : string) (options : option FindOptions) (w : World) : World :=
  after (Logged info ("Attempting to heal locator: " ++ locator)%string)
    (world_at_healing locator options w).

(** The triple that the export gives for an original locator, a healed
    locator and a kind of strategy. *)
Definition exported_triple (original healed : string) (t : StrategyType) : Exported.t :=
  {| Exported.original := original;
     Exported.healed := healed;
     Exported.strategy := type_name t |}.

(** A page that does not change and shows nothing: every wait times out
    and no element is visible. *)
Definition empty_page : Page :=
  {| answer_isVisible := fun _ _ _ => inr false;
     answer_getAttribute := fun _ _ _ => inr None;
     answer_textContent := fun _ _ => inr None;
     answer_waitFor := fun _ _ _ _ => inl "TimeoutError: Timeout 5000ms exceeded." |}.

(* ===================================================================== *)
(** ** The strategy table of the specification *)
(* ===================================================================== *)

(** The white space that separates the classes of a class attribute in
    HTML: TAB, LF, FF, CR and SP. *)
Definition is_ascii_whitespace (c : ascii) : bool :=
  let n := nat_of_ascii c in
  ((n =? 9) || (n =? 10) || (n =? 12) || (n =? 13) || (n =? 32))%nat.

(** The pieces of a string between the characters that [separates]
    holds of, empty pieces kept. *)
Fixpoint split_where (separates : ascii -> bool) (s : string) : list string :=
  match s with
  | EmptyString => [EmptyString]
  | String c rest =>
      if separates c then EmptyString :: split_where separates rest
      else match split_where separates rest with
           | [] => [String c EmptyString]
           | piece :: pieces => String c piece :: pieces
           end
  end.

(** The class list of an element: the classes of its class attribute, when
    there is at least one. *)
Definition class_list (o : option string) : option (list string) :=
  match o with
  | Some v =>
      match filter JsString.truthy (split_where is_ascii_whitespace v) with
      | [] => None
      | classes => Some classes
      end
  | None => None
  end.

(** The fixed table: for each attribute, the value of the strategy when
    the attribute is present and not empty, its kind and its priority. *)
Definition table (a : ElementAttributes) : list (option string * StrategyType * Z) :=
  [ (present (attr_data_testid a), testId, 1%Z);
    (option_map (fun id => ("#" ++ id)%string) (present (attr_id a)), css, 2%Z);
    (option_map
       (fun name => ("[name=" ++ String double_quote name
                     ++ String double_quote "]")%string)
       (present (attr_name a)), css, 3%Z);
    (present (attr_aria_label a), label, 4%Z);
    (present (attr_placeholder a), placeholder, 5%Z);
    (present (attr_role a), role, 6%Z);
    (non_blank_text (text_content a), text, 7%Z);
    (option_map (fun classes => ("." ++ JsString.join "." classes)%string)
       (class_list (attr_class a)), css, 8%Z) ].

(** The strategy of a line of the table, if its attribute gives one. *)
Definition line_strategy (line : option string * StrategyType * Z) : list LocatorStrategy :=
  match line with
  | (Some v, kind, rank) => [{| type := kind; value := v; priority := rank |}]
  | (None, _, _) => []
  end.

(** The strategies of the table for an element, in the order of the
    table. *)
Definition table_strategies (a : ElementAttributes) : list LocatorStrategy :=
  flat_map line_strategy (table a).

(** [null] for a read that was rejected. *)
Definition or_null (answer : string + option string) : option string :=
  match answer with
  | inr v => v
  | inl _ => None
  end.

(** The attributes of an element as the page gives them to the eight
    reads of synthesis, each read asked after those before it. *)
Definition element_attributes (page : Page) (element : Locator) (tr : Trace)
  : ElementAttributes :=
  let after_reads n := tr ++ firstn n (attribute_reads element) in
  {| attr_id := or_null (answer_getAttribute page (after_reads 0) element "id");
     attr_class := or_null (answer_getAttribute page (after_reads 1) element "class");
     attr_name := or_null (answer_getAttribute page (after_reads 2) element "name");
     attr_data_testid :=
       or_null (answer_getAttribute page (after_reads 3) element "data-testid");
     attr_aria_label :=
       or_null (answer_getAttribute page (after_reads 4) element "aria-label");
     attr_placeholder :=
       or_null (answer_getAttribute page (after_reads 5) element "placeholder");
     text_content := or_null (answer_textContent page (after_reads 6) element);
     attr_role := or_null (answer_getAttribute page (after_reads 7) element "role") |}.

(** A class attribute, if any, in which no white space but the space
    separates classes. *)
Fixpoint spaces_only (s : string) : bool :=
  match s with
  | EmptyString => true
  | String c rest =>
      Bool.eqb (is_ascii_whitespace c) (Ascii.eqb c " "%char) && spaces_only rest
  end.

Definition class_spaces_only (o : option string) : bool :=
  match o with
  | Some v => spaces_only v
  | None => true
  end.

(** The character U+0009, the tabulation. *)
Definition tab : ascii := ascii_of_nat 9.

(** The element behind ["#old"] with its two classes separated by a
    tabulation, and a page that shows it under ["#old"] alone. *)
Definition tabbed_element_attribute (name : string) : option string :=
  if String.eqb name "data-testid" then Some "submit"
  else if String.eqb name "id" then Some "real-id"
  else if String.eqb name "class" then Some ("btn" ++ String tab "primary")%string
  else None.

Definition tabbed_page : Page :=
  {| answer_isVisible := fun _ l _ => inr (is_first_of "#old" l);
     answer_getAttribute := fun _ l name =>
       inr (if is_first_of "#old" l then tabbed_element_attribute name else None);
     answer_textContent := fun _ l =>
       inr (if is_first_of "#old" l then Some EmptyString else None);
     answer_waitFor := fun _ _ _ _ => inl "TimeoutError: Timeout 5000ms exceeded." |}.

(** The history at which synthesis reads the attributes, when it starts
    in a world. *)
Definition trace_at_reads (originalLocator : string) (w : World) : Trace :=
  trace w ++ [Asked (isVisible (first (page_locator originalLocator)) None)].

(* ===================================================================== *)
(** ** The export and its guard *)
(* ===================================================================== *)

(** A field that is present and not empty. *)
Definition filled (o : option string) : bool :=
  match o with
  | Some s => JsString.truthy s
  | None => false
  end.

(** The entries that the export takes: the successes with a healed
    locator and a strategy, neither missing nor empty. *)
Definition exportable (r : HealingResult) : bool :=
  success r && filled (healedLocator r) && filled (strategy r).

(** The export gives one triple for each success of the ledger, in the
    order of the ledger. *)
Definition export_holds_every_success (w : World) : Prop :=
  exists exports w',
    exportHealedLocators w = (Fulfilled exports, w')
    /\ Forall2 exported_from exports
         (filter (fun entry => success (snd entry)) (healingHistory (this w))).

(** A ledger of four successes of which one has both its healed locator
    and its strategy: [HealingResult] leaves both fields optional, and
    [getHealingHistory] hands the map itself to its caller. *)
Definition ledger_of_bare_successes : JsMap.t HealingResult :=
  [ ("#a", {| success := true; originalLocator := "#a";
              healedLocator := Some "#a2"; strategy := Some "css"; attempts := 1 |});
    ("#b", {| success := true; originalLocator := "#b";
              healedLocator := None; strategy := Some "css"; attempts := 1 |});
    ("#c", {| success := true; originalLocator := "#c";
              healedLocator := Some EmptyString; strategy := Some "css"; attempts := 1 |});
    ("#d", {| success := true; originalLocator := "#d";
              healedLocator := Some "#d2"; strategy := None; attempts := 1 |}) ].

Definition world_of_bare_successes : World :=
  {| this := {| healingHistory := ledger_of_bare_successes; locatorCache := JsMap.empty |};
     trace := [] |}.

(* ===================================================================== *)
(** ** Later worlds *)
(* ===================================================================== *)

Definition is_clearCache (c : Call) : bool :=
  match c with
  | call_clearCache => true
  | _ => false
  end.

(** The worlds that come after a world by calls other than [clearCache]
    and by what happens elsewhere. *)
Inductive later_without_clear (w0 : World) : World -> Prop :=
| later_now : later_without_clear w0 w0
| later_call (c : Call) (w : World) :
    later_without_clear w0 w -> is_clearCache c = false ->
    later_without_clear w0 (run_call c w)
| later_elsewhere (events : Trace) (w : World) :
    later_without_clear w0 w ->
    later_without_clear w0 {| this := this w; trace := trace w ++ events |}.

(* ===================================================================== *)
(** ** Facts about [JsMap] *)
(* ===================================================================== *)

Unset Implicit Arguments.

Module JsMapFacts.

Section WithValue.
Variable V : Type.
Implicit Types (m : JsMap.t V) (k : string) (v : V).

Lemma get_set_same k v m : JsMap.get k (JsMap.set k v m) = Some v.
Proof.
  induction m as [|[k' v'] rest IH]; simpl.
  - now rewrite String.eqb_refl.
  - destruct (String.eqb k k') eqn:E; simpl; rewrite E; auto.
Qed.

Lemma get_set_other k k' v m :
  k' <> k -> JsMap.get k' (JsMap.set k v m) = JsMap.get k' m.
Proof.
  intros Hne. induction m as [|[k0 v0] rest IH]; simpl.
  - destruct (String.eqb k' k) eqn:E; auto.
    apply String.eqb_eq in E. contradiction.
  - destruct (String.eqb k k0) eqn:E; simpl.
    + apply String.eqb_eq in E. subst k0.
      destruct (String.eqb k' k) eqn:E'; auto.
      apply String.eqb_eq in E'. contradiction.
    + now rewrite IH.
Qed.

Lemma has_get k m :
  JsMap.has k m = true <-> exists v, JsMap.get k m = Some v.
Proof.
  unfold JsMap.has. destruct (JsMap.get k m).
  - split; eauto.
  - split; [discriminate | intros [v H]; discriminate].
Qed.

Lemma get_In k v m : JsMap.get k m = Some v -> In (k, v) m.
Proof.
  induction m as [|[k' v'] rest IH]; simpl; [discriminate|].
  destruct (String.eqb k k') eqn:E.
  - apply String.eqb_eq in E. intros [= ->]. subst. now left.
  - intros H. right. auto.
Qed.

(** An entry of a map after [set] is the entry written or an entry that
    was there. *)
Lemma In_set k v m k' v' :
  In (k', v') (JsMap.set k v m) -> (k' = k /\ v' = v) \/ In (k', v') m.
Proof.
  induction m as [|[k0 v0] rest IH]; simpl.
  - intros [[= <- <-]|[]]. now left.
  - destruct (String.eqb k k0) eqn:E; simpl.
    + apply String.eqb_eq in E. subst k0.
      intros [[= <- <-]|H]; [now left | right; now right].
    + intros [H|H]; [right; now left|].
      destruct (IH H) as [?|?]; [now left | right; now right].
Qed.

(** [set] keeps the keys pairwise distinct. *)
Lemma keys_set_NoDup k v m :
  NoDup (JsMap.keys m) -> NoDup (JsMap.keys (JsMap.set k v m)).
Proof.
  induction m as [|[k0 v0] rest IH]; simpl; intros Hnd.
  - constructor; [intros [] | constructor].
  - destruct (String.eqb k k0) eqn:E; simpl; [exact Hnd|].
    inversion Hnd as [|? ? Hnotin Hrest]; subst.
    constructor; [|now apply IH].
    intros Hin. apply Hnotin. clear IH Hnd Hrest Hnotin.
    induction rest as [|[k1 v1] rest IH]; simpl in *.
    + destruct Hin as [<-|[]]. now rewrite String.eqb_refl in E.
    + destruct (String.eqb k k1) eqn:E1; simpl in *; [exact Hin|].
      destruct Hin as [<-|Hin]; [now left | right; auto].
Qed.

(** The size after [set]: one more for a new key, the same for a key that
    was there. *)
Lemma size_set k v m :
  JsMap.size (JsMap.set k v m) =
  if JsMap.has k m then JsMap.size m else S (JsMap.size m).
Proof.
  unfold JsMap.has, JsMap.size.
  induction m as [|[k0 v0] rest IH]; simpl; auto.
  destruct (String.eqb k k0) eqn:E; simpl; auto.
  rewrite IH. now destruct (JsMap.get k rest).
Qed.

End WithValue.

End JsMapFacts.

(* ===================================================================== *)
(** ** The sort *)
(* ===================================================================== *)

Section Sorting.
Variable A : Type.
Variable compare : A -> A -> Z.

Lemma sort_insert_perm x l : Permutation (x :: l) (sort_insert compare x l).
Proof.
  induction l as [|y rest IH]; simpl; [reflexivity|].
  destruct (compare x y <=? 0)%Z; [reflexivity|].
  rewrite perm_swap. now constructor.
Qed.

(** The sort rearranges and loses nothing. *)
Lemma Array_sort_perm l : Permutation l (Array_sort compare l).
Proof.
  induction l as [|x rest IH]; simpl; [constructor|].
  etransitivity; [|apply sort_insert_perm]. now constructor.
Qed.

(** An array already in order comes back as it is. *)
Lemma Array_sort_in_order l :
  StronglySorted (fun x y => (compare x y <= 0)%Z) l -> Array_sort compare l = l.
Proof.
  induction 1 as [|x rest Hrest IH Hall]; simpl; [reflexivity|].
  fold (Array_sort compare rest). rewrite IH.
  destruct rest as [|y rest']; simpl; [reflexivity|].
  inversion Hall as [|? ? Hxy _]; subst.
  apply Z.leb_le in Hxy. now rewrite Hxy.
Qed.

End Sorting.

Lemma sort_insert_by_priority x l :
  StronglySorted (fun a b => (priority a <= priority b)%Z) l ->
  StronglySorted (fun a b => (priority a <= priority b)%Z) (sort_insert by_priority x l).
Proof.
  induction 1 as [|y rest Hrest IH Hall]; simpl.
  - repeat constructor.
  - unfold by_priority at 1.
    destruct (priority x - priority y <=? 0)%Z eqn:E.
    + apply Z.leb_le in E. constructor; [now constructor|].
      constructor; [lia|].
      eapply Forall_impl; [|exact Hall]. simpl. intros; lia.
    + apply Z.leb_gt in E. constructor; [exact IH|].
      eapply Permutation_Forall; [apply sort_insert_perm|].
      constructor; [lia | exact Hall].
Qed.

(** The sort by priority leaves the array in order. *)
Lemma Array_sort_by_priority_sorted l :
  StronglySorted (fun a b => (priority a <= priority b)%Z) (Array_sort by_priority l).
Proof.
  induction l as [|x rest IH]; simpl; [constructor|].
  now apply sort_insert_by_priority.
Qed.

(* ===================================================================== *)
(** ** The strategies that synthesis builds *)
(* ===================================================================== *)

Lemma truthy_nonempty s : JsString.truthy s = true <-> s <> EmptyString.
Proof. destruct s; simpl; split; congruence. Qed.

Lemma if_truthy_row (f : string -> LocatorStrategy) o acc :
  if_truthy o (fun v acc => push acc (f v)) acc
  = acc ++ row_strategy (option_map f (present o)).
Proof.
  unfold if_truthy, present, push.
  destruct o as [v|]; simpl; [|now rewrite app_nil_r].
  destruct (JsString.truthy v); simpl; [reflexivity | now rewrite app_nil_r].
Qed.

Lemma trim_truthy v :
  JsString.truthy (JsString.trim v) = true -> JsString.truthy v = true.
Proof. destruct v; simpl; auto. Qed.

Lemma if_truthy_text_row acc o :
  if_truthy o
    (fun v acc =>
       if JsString.truthy (JsString.trim v)
       then push acc {| type := text; value := JsString.trim v; priority := 7 |}
       else acc) acc
  = acc ++ row_strategy
             (option_map (fun v => {| type := text; value := v; priority := 7 |})
                (non_blank_text o)).
Proof.
  unfold if_truthy, non_blank_text, push.
  destruct o as [v|]; simpl; [|now rewrite app_nil_r].
  destruct (JsString.truthy (JsString.trim v)) eqn:E.
  - now rewrite (trim_truthy _ E).
  - destruct (JsString.truthy v); simpl; now rewrite app_nil_r.
Qed.

Lemma if_truthy_class_row acc o :
  if_truthy o
    (fun v acc =>
       let classes := filter JsString.truthy (JsString.split " "%char v) in
       if (0 <? length classes)%nat
       then push acc {| type := css;
                        value := ("." ++ JsString.join "." classes)%string;
                        priority := 8 |}
       else acc) acc
  = acc ++ row_strategy
             (option_map
                (fun classes => {| type := css;
                                   value := ("." ++ JsString.join "." classes)%string;
                                   priority := 8 |})
                (pushed_classes o)).
Proof.
  unfold if_truthy, pushed_classes, push.
  destruct o as [v|]; simpl; [|now rewrite app_nil_r].
  destruct (JsString.truthy v) eqn:E.
  - destruct (filter JsString.truthy (JsString.split " " v)); simpl;
      [now rewrite app_nil_r | reflexivity].
  - destruct v; [simpl; now rewrite app_nil_r | discriminate].
Qed.

(** The pushes of the source, one after the other, build the rows. *)
Lemma build_strategies_pushed a : build_strategies a = pushed_strategies a.
Proof.
  unfold build_strategies, pushed_strategies, pushed_rows.
  rewrite if_truthy_class_row, if_truthy_text_row.
  rewrite !(if_truthy_row (fun v => {| type := role; value := v; priority := 6 |})).
  rewrite !(if_truthy_row (fun v => {| type := placeholder; value := v; priority := 5 |})).
  rewrite !(if_truthy_row (fun v => {| type := label; value := v; priority := 4 |})).
  rewrite !(if_truthy_row
              (fun v => {| type := css;
                           value := ("[name=" ++ String double_quote
                                       (v ++ String double_quote "]"))%string;
                           priority := 3 |})).
  rewrite !(if_truthy_row
              (fun v => {| type := css; value := ("#" ++ v)%string; priority := 2 |})).
  rewrite !(if_truthy_row (fun v => {| type := testId; value := v; priority := 1 |})).
  simpl. rewrite <- !app_assoc, app_nil_r. reflexivity.
Qed.

(** The rows are in ascending order of priority whichever apply. *)
Lemma pushed_strategies_ascending a : ascending (pushed_strategies a).
Proof.
  unfold ascending, pushed_strategies, pushed_rows.
  destruct (present (attr_data_testid a)), (present (attr_id a)),
    (present (attr_name a)), (present (attr_aria_label a)),
    (present (attr_placeholder a)), (present (attr_role a)),
    (non_blank_text (text_content a)), (pushed_classes (attr_class a));
    simpl; repeat (constructor; simpl; try lia).
Qed.

Lemma ascending_in_order l :
  ascending l -> StronglySorted (fun x y => (by_priority x y <= 0)%Z) l.
Proof.
  unfold ascending, by_priority.
  induction 1 as [|x rest Hrest IH Hall]; constructor; auto.
  eapply Forall_impl; [|exact Hall]. simpl. intros; lia.
Qed.

(** So the final sort of [generateAlternativeStrategies] changes
    nothing. *)
Lemma sorted_build_strategies a :
  Array_sort by_priority (build_strategies a) = pushed_strategies a.
Proof.
  rewrite build_strategies_pushed.
  apply Array_sort_in_order, ascending_in_order, pushed_strategies_ascending.
Qed.

Lemma present_nonempty o v : present o = Some v -> v <> EmptyString.
Proof.
  unfold present. destruct o as [u|]; [|discriminate].
  destruct (JsString.truthy u) eqn:E; [|discriminate].
  intros [= <-]. now apply truthy_nonempty.
Qed.

Lemma non_blank_text_nonempty o v : non_blank_text o = Some v -> v <> EmptyString.
Proof.
  unfold non_blank_text. destruct o as [u|]; [|discriminate].
  destruct (JsString.truthy (JsString.trim u)) eqn:E; [|discriminate].
  intros [= <-]. now apply truthy_nonempty.
Qed.

Lemma row_strategy_Forall (B : Type) (P : LocatorStrategy -> Prop)
  (f : B -> LocatorStrategy) (o : option B) :
  (forall v, o = Some v -> P (f v)) -> Forall P (row_strategy (option_map f o)).
Proof.
  destruct o as [v|]; simpl; intros H; constructor; auto.
Qed.

(** Every strategy of the rows has a value that is not empty. *)
Lemma pushed_strategies_values a :
  Forall (fun s => value s <> EmptyString) (pushed_strategies a).
Proof.
  unfold pushed_strategies. apply Forall_flat_map.
  unfold pushed_rows.
  repeat (apply Forall_cons; [apply row_strategy_Forall; intros v E; simpl|]);
    try apply Forall_nil;
    try discriminate;
    try (now apply (present_nonempty _ _ E)).
  now apply (non_blank_text_nonempty _ _ E).
Qed.

(* ===================================================================== *)
(** ** Running the methods *)
(* ===================================================================== *)

Ltac run :=
  unfold catch_with, Logger in *;
  unfold bind, ret, throw, try_catch, ask, emit, get_this,
    locatorCache_set, healingHistory_set, locatorCache_clear, after in *;
  simpl in *.

(** A query with a fallback is always fulfilled and leaves one event. *)
Lemma catch_ask (A : Type) (q : Query) (answer : Trace -> string + A) (fallback : A) w :
  catch_with (ask q answer) fallback w
  = (Fulfilled (match answer (trace w) with inr a => a | inl _ => fallback end),
     after (Asked q) w).
Proof.
  run. destruct (answer (trace w)); reflexivity.
Qed.

Lemma bind_fulfilled (A B : Type) (c : M A) (k : A -> M B) w a w' :
  c w = (Fulfilled a, w') -> bind c k w = k a w'.
Proof. unfold bind. now intros ->. Qed.

(** The reads of the attributes always come back, and leave their eight
    queries and nothing else. *)
Lemma read_attributes_run page element w :
  exists a,
    read_attributes page element w
    = (Fulfilled a, {| this := this w; trace := trace w ++ attribute_reads element |}).
Proof.
  unfold read_attributes, locator_getAttribute, locator_textContent.
  repeat (erewrite bind_fulfilled; [|apply catch_ask]).
  eexists. unfold ret, after; simpl.
  rewrite <- !app_assoc. simpl. reflexivity.
Qed.

(** Synthesis always returns, does not touch the engine, asks the browser
    and logs nothing, and gives the empty list or the rows of some
    attributes. *)
Lemma generateAlternativeStrategies_run page originalLocator context w :
  exists strategies events,
    generateAlternativeStrategies page originalLocator context w
    = (Fulfilled strategies, {| this := this w; trace := trace w ++ events |})
    /\ forallb is_query events = true
    /\ events <> []
    /\ (strategies = [] \/ exists a, strategies = pushed_strategies a).
Proof.
  unfold generateAlternativeStrategies, locator_isVisible.
  erewrite bind_fulfilled; [|apply catch_ask].
  destruct (match answer_isVisible page (trace w) _ None with
            | inr a => a | inl _ => false end) eqn:Hvis.
  - destruct (read_attributes_run page (first (page_locator originalLocator))
                (after (Asked (isVisible (first (page_locator originalLocator)) None)) w))
      as [a Ha].
    erewrite bind_fulfilled; [|exact Ha].
    exists (pushed_strategies a),
      (Asked (isVisible (first (page_locator originalLocator)) None)
         :: attribute_reads (first (page_locator originalLocator))).
    unfold ret, after; simpl. rewrite sorted_build_strategies.
    rewrite <- app_assoc. simpl.
    repeat split; [discriminate | right; now exists a].
  - exists [], [Asked (isVisible (first (page_locator originalLocator)) None)].
    unfold ret, after; simpl. repeat split; [discriminate | now left].
Qed.

(** The trial loop: either some strategy is the first one seen visible,
    and the loop returns its result having written the cache and the
    ledger; or none is, and the loop falls through having counted them all
    and written nothing. *)
Lemma trial_loop_run page originalLocator strategies n w :
  (exists pre s post,
      strategies = pre ++ s :: post
      /\ none_visible page (trace w) pre = true
      /\ seen_visible page (trace w ++ map probe pre) s = true
      /\ trial_loop page originalLocator strategies n w
         = (Fulfilled (Returns (result_of_win originalLocator s (n + length pre + 1))),
            {| this :=
                 {| healingHistory :=
                      JsMap.set originalLocator
                        (result_of_win originalLocator s (n + length pre + 1))
                        (healingHistory (this w));
                    locatorCache :=
                      JsMap.set originalLocator (value s) (locatorCache (this w)) |};
               trace :=
                 trace w ++ map probe (pre ++ [s])
                 ++ [Logged info ("Successfully healed locator using "
                                  ++ type_name (type s) ++ ": " ++ value s)%string] |}))
  \/ (none_visible page (trace w) strategies = true
      /\ trial_loop page originalLocator strategies n w
         = (Fulfilled (FallsThrough (n + length strategies)),
            {| this := this w; trace := trace w ++ map probe strategies |})).
Proof.
  revert n w.
  induction strategies as [|s rest IH]; intros n w.
  - right. simpl. unfold ret. rewrite Nat.add_0_r, app_nil_r.
    destruct w; auto.
  - simpl trial_loop. unfold locator_isVisible.
    erewrite bind_fulfilled; [|apply catch_ask].
    fold (seen_visible page (trace w) s).
    destruct (seen_visible page (trace w) s) eqn:Hseen.
    + left. exists [], s, rest. simpl.
      rewrite app_nil_r, Nat.add_0_r, Nat.add_1_r.
      repeat split; auto.
      run. rewrite <- app_assoc. reflexivity.
    + specialize (IH (S n) (after (probe s) w)).
      fold (probe s).
      destruct IH as [(pre & s' & post & Hsplit & Hnone & Hvis & Hrun)|[Hnone Hrun]].
      * left. exists (s :: pre), s', post. simpl in *.
        rewrite Hseen. simpl. rewrite <- !app_assoc in *. simpl in *.
        rewrite Hrun. subst rest.
        replace (n + S (length pre) + 1) with (S (n + length pre + 1)) by lia.
        repeat split; auto.
      * right. simpl in *. rewrite Hseen, Hnone, Hrun. simpl.
        rewrite <- app_assoc. simpl.
        replace (n + S (length rest)) with (S (n + length rest)) by lia.
        auto.
Qed.

(* ===================================================================== *)
(** ** [healLocator], case by case *)
(* ===================================================================== *)

(** Served from the cache. *)
Lemma healLocator_cached page originalLocator elementContext w cachedLocator :
  JsMap.get originalLocator (locatorCache (this w)) = Some cachedLocator ->
  healLocator page originalLocator elementContext w
  = (Fulfilled (result_of_cache originalLocator cachedLocator),
     {| this := this w;
        trace := trace w
                 ++ [Logged info ("Attempting to heal locator: " ++ originalLocator)%string;
                     Logged info ("Using cached healed locator: " ++ cachedLocator)%string] |}).
Proof.
  intros Hget. unfold healLocator. run. rewrite Hget.
  cbn [this trace]. rewrite <- app_assoc. reflexivity.
Qed.

(** Not served from the cache: synthesis, then the trial loop, then one of
    its two ends. *)
Lemma healLocator_fresh page originalLocator elementContext w :
  JsMap.get originalLocator (locatorCache (this w)) = None ->
  exists strategies w1,
    generateAlternativeStrategies page originalLocator elementContext
      (after (Logged info ("Attempting to heal locator: " ++ originalLocator)%string) w)
    = (Fulfilled strategies, w1)
    /\ this w1 = this w
    /\ ((exists pre s post,
           strategies = pre ++ s :: post
           /\ none_visible page (trace w1) pre = true
           /\ seen_visible page (trace w1 ++ map probe pre) s = true
           /\ exists tr,
               healLocator page originalLocator elementContext w
               = (Fulfilled (result_of_win originalLocator s (length pre + 1)),
                  {| this :=
                       {| healingHistory :=
                            JsMap.set originalLocator
                              (result_of_win originalLocator s (length pre + 1))
                              (healingHistory (this w));
                          locatorCache :=
                            JsMap.set originalLocator (value s) (locatorCache (this w)) |};
                     trace := tr |}))
        \/ (none_visible page (trace w1) strategies = true
            /\ exists tr,
                healLocator page originalLocator elementContext w
                = (Fulfilled (result_of_exhaustion originalLocator (length strategies)),
                   {| this :=
                        {| healingHistory :=
                             JsMap.set originalLocator
                               (result_of_exhaustion originalLocator (length strategies))
                               (healingHistory (this w));
                           locatorCache := locatorCache (this w) |};
                      trace := tr |}))).
Proof.
  intros Hget.
  destruct (generateAlternativeStrategies_run page originalLocator elementContext
              (after (Logged info ("Attempting to heal locator: " ++ originalLocator)%string) w))
    as (strategies & events & Hgen & _ & _ & _).
  exists strategies. eexists. split; [exact Hgen|]. split; [reflexivity|].
  unfold healLocator.
  erewrite bind_fulfilled; [|unfold Logger, emit; reflexivity].
  erewrite bind_fulfilled; [|unfold get_this; reflexivity].
  cbn [this trace]. rewrite Hget.
  erewrite bind_fulfilled; [|exact Hgen].
  match goal with
  | |- context [bind (trial_loop page originalLocator strategies 0) _ ?w1] =>
      destruct (trial_loop_run page originalLocator strategies 0 w1)
        as [(pre & s & post & Hsplit & Hnone & Hvis & Hrun)|[Hnone Hrun]]
  end.
  - left. exists pre, s, post. cbn [this trace] in *.
    repeat split; auto.
    eexists. erewrite bind_fulfilled; [|exact Hrun]. unfold ret. reflexivity.
  - right. cbn [this trace] in *. split; auto.
    eexists. erewrite bind_fulfilled; [|exact Hrun].
    unfold bind, healingHistory_set, Logger, emit, ret. cbn [this trace fst snd].
    reflexivity.
Qed.

(** [healLocator] always returns a result; it never throws. *)
Lemma healLocator_returns page originalLocator elementContext w :
  exists r w', healLocator page originalLocator elementContext w = (Fulfilled r, w').
Proof.
  destruct (JsMap.get originalLocator (locatorCache (this w))) as [c|] eqn:Hget.
  - rewrite (healLocator_cached page _ elementContext _ _ Hget). eauto.
  - destruct (healLocator_fresh page originalLocator elementContext w Hget)
      as (strategies & w1 & _ & _ & [(pre & s & post & _ & _ & _ & tr & Hrun)|(_ & tr & Hrun)]);
      rewrite Hrun; eauto.
Qed.

(* ===================================================================== *)
(** ** The cache and the ledger *)
(* ===================================================================== *)

(** C3. When the original locator has a cache entry, [healLocator] returns
    at once a success with the cached value as healed locator, the strategy
    ["cached"] and no attempt; the engine is as it was and no query went to
    the browser, so neither synthesis nor the trial loop ran. *)
Theorem healLocator_cache_short_circuit
  page originalLocator elementContext w cachedLocator :
  JsMap.get originalLocator (locatorCache (this w)) = Some cachedLocator ->
  exists r w' events,
    healLocator page originalLocator elementContext w = (Fulfilled r, w')
    /\ success r = true
    /\ healedLocator r = Some cachedLocator
    /\ strategy r = Some "cached"
    /\ attempts r = 0
    /\ this w' = this w
    /\ trace w' = trace w ++ events
    /\ filter is_query events = [].
Proof.
  intros Hget.
  rewrite (healLocator_cached page _ elementContext _ _ Hget).
  do 3 eexists. repeat split.
Qed.

Lemma healLocator_cache_short_circuit_witness :
  exists r w' events,
    healLocator late_page "#old" None world_healed_once = (Fulfilled r, w')
    /\ success r = true
    /\ healedLocator r = Some "submit"
    /\ strategy r = Some "cached"
    /\ attempts r = 0
    /\ this w' = this world_healed_once
    /\ trace w' = trace world_healed_once ++ events
    /\ filter is_query events = [].
Proof.
  apply (healLocator_cache_short_circuit late_page "#old" None world_healed_once).
  vm_compute. reflexivity.
Defined.

(** C1, as stated, fails: a call served from the cache returns a result
    with the strategy ["cached"] and no attempt and leaves the ledger with
    the result of the healing that filled the cache. *)
Lemma ledger_misses_cached_result :
  ~ ledger_holds_returned_result late_page "#old" None world_healed_once.
Proof.
  vm_compute. discriminate.
Qed.

(** C1, amended. [healLocator] always returns a result.  When the original
    locator has no cache entry, the ledger then holds that result under the
    original locator, in place of any earlier one, and its other entries are
    as before; when it has one, the ledger is as it was before the call. *)
Theorem healLocator_ledger page originalLocator elementContext w :
  exists r w',
    healLocator page originalLocator elementContext w = (Fulfilled r, w')
    /\ (JsMap.has originalLocator (locatorCache (this w)) = false ->
        JsMap.get originalLocator (healingHistory (this w')) = Some r
        /\ forall k, k <> originalLocator ->
             JsMap.get k (healingHistory (this w')) = JsMap.get k (healingHistory (this w)))
    /\ (JsMap.has originalLocator (locatorCache (this w)) = true ->
        healingHistory (this w') = healingHistory (this w)).
Proof.
  unfold JsMap.has.
  destruct (JsMap.get originalLocator (locatorCache (this w))) as [c|] eqn:Hget.
  - rewrite (healLocator_cached page _ elementContext _ _ Hget).
    do 2 eexists. split; [reflexivity|]. split; [discriminate | reflexivity].
  - destruct (healLocator_fresh page originalLocator elementContext w Hget)
      as (strategies & w1 & _ & _ &
          [(pre & s & post & _ & _ & _ & tr & Hrun)|(_ & tr & Hrun)]);
      rewrite Hrun; do 2 eexists; (split; [reflexivity|]);
      (split; [intros _|discriminate]); cbn [this healingHistory];
      (split; [apply JsMapFacts.get_set_same
              | intros k Hk; now apply JsMapFacts.get_set_other]).
Qed.

(** A list none of whose strategies is seen visible has no strategy seen
    visible at its turn. *)
Lemma none_visible_split page tr pre s post :
  none_visible page tr (pre ++ s :: post) = true ->
  seen_visible page (tr ++ map probe pre) s = false.
Proof.
  revert tr. induction pre as [|p pre IH]; intros tr; simpl.
  - rewrite app_nil_r. intros H. apply andb_prop in H as [H _].
    now apply negb_true_iff in H.
  - intros H. apply andb_prop in H as [_ H].
    specialize (IH _ H). now rewrite <- app_assoc in IH.
Qed.



(* ===================================================================== *)
(** ** The invariant of the engine *)
(* ===================================================================== *)

Lemma type_name_nonempty t : type_name t <> EmptyString.
Proof. destruct t; discriminate. Qed.

Lemma well_formed_new : well_formed new_TestHealer.
Proof.
  split; simpl; try constructor; intros ? ? [].
Qed.

Lemma well_formed_set_history self k r :
  well_formed self -> result_ok r ->
  well_formed {| healingHistory := JsMap.set k r (healingHistory self);
                 locatorCache := locatorCache self |}.
Proof.
  intros [Hc Hh Hck Hhk] Hr. split; simpl; auto.
  - intros k' r' Hin. apply JsMapFacts.In_set in Hin as [[_ ->]|Hin]; eauto.
  - now apply JsMapFacts.keys_set_NoDup.
Qed.

Lemma well_formed_set_cache self k v :
  well_formed self -> v <> EmptyString ->
  well_formed {| healingHistory := healingHistory self;
                 locatorCache := JsMap.set k v (locatorCache self) |}.
Proof.
  intros [Hc Hh Hck Hhk] Hv. split; simpl; auto.
  - intros k' v' Hin. apply JsMapFacts.In_set in Hin as [[_ ->]|Hin]; eauto.
  - now apply JsMapFacts.keys_set_NoDup.
Qed.

Lemma result_of_win_ok originalLocator s n :
  value s <> EmptyString -> result_ok (result_of_win originalLocator s n).
Proof.
  intros Hv _. exists (value s), (type_name (type s)).
  repeat split; auto using type_name_nonempty.
Qed.

Lemma result_of_exhaustion_ok originalLocator n :
  result_ok (result_of_exhaustion originalLocator n).
Proof. intros H. discriminate. Qed.

(** The strategies that synthesis returns have values that are not
    empty. *)
Lemma generateAlternativeStrategies_values page originalLocator context w strategies w1 :
  generateAlternativeStrategies page originalLocator context w = (Fulfilled strategies, w1) ->
  Forall (fun s => value s <> EmptyString) strategies.
Proof.
  intros Hgen.
  destruct (generateAlternativeStrategies_run page originalLocator context w)
    as (strategies0 & events & Hgen0 & _ & _ & Hshape).
  rewrite Hgen in Hgen0. injection Hgen0 as <- _.
  destruct Hshape as [->|[a ->]]; [constructor | apply pushed_strategies_values].
Qed.

(** What [healLocator] returns and what it leaves in the engine, for an
    engine that satisfies the invariant. *)
Lemma healLocator_well_formed page originalLocator elementContext w :
  well_formed (this w) ->
  exists r w',
    healLocator page originalLocator elementContext w = (Fulfilled r, w')
    /\ result_ok r /\ well_formed (this w').
Proof.
  intros Hwf.
  destruct (JsMap.get originalLocator (locatorCache (this w))) as [c|] eqn:Hget.
  - rewrite (healLocator_cached page _ elementContext _ _ Hget).
    do 2 eexists. split; [reflexivity|]. split; [|exact Hwf].
    intros _. exists c, "cached". repeat split; [|discriminate].
    apply JsMapFacts.get_In in Hget. eapply wf_cache_values; eauto.
  - destruct (healLocator_fresh page originalLocator elementContext w Hget)
      as (strategies & w1 & Hgen & _ &
          [(pre & s & post & Hsplit & _ & _ & tr & Hrun)|(_ & tr & Hrun)]);
      rewrite Hrun; do 2 eexists; (split; [reflexivity|]); cbn [this].
    + apply generateAlternativeStrategies_values in Hgen.
      assert (Hv : value s <> EmptyString).
      { rewrite Forall_forall in Hgen. apply Hgen. subst strategies.
        apply in_or_app. right. now left. }
      split; [now apply result_of_win_ok|].
      apply (well_formed_set_history
               {| healingHistory := healingHistory (this w);
                  locatorCache := JsMap.set originalLocator (value s)
                                    (locatorCache (this w)) |}).
      * apply (well_formed_set_cache (this w)); auto.
      * now apply result_of_win_ok.
    + split; [apply result_of_exhaustion_ok|].
      apply (well_formed_set_history (this w)); auto.
      apply result_of_exhaustion_ok.
Qed.

(* ===================================================================== *)
(** ** [findElement], case by case *)
(* ===================================================================== *)

(** The direct resolution works. *)
Lemma findElement_direct page locator options w u :
  direct_resolution page locator options w = inr u ->
  findElement page locator options w
  = (Fulfilled (page_locator locator), world_after_wait locator options w).
Proof.
  unfold direct_resolution, findElement, locator_waitFor. intros H.
  run. rewrite H. reflexivity.
Qed.

(** The direct resolution fails and healing is disabled. *)
Lemma findElement_disabled page locator options w reason :
  direct_resolution page locator options w = inl reason ->
  enableHealing_of options = false ->
  findElement page locator options w
  = (Rejected (Rejection reason), world_after_wait locator options w).
Proof.
  unfold direct_resolution, findElement, locator_waitFor. intros H Hoff.
  run. rewrite H, Hoff. reflexivity.
Qed.

(** The direct resolution fails and healing is enabled. *)
Lemma findElement_healing page locator options w reason r w2 :
  direct_resolution page locator options w = inl reason ->
  enableHealing_of options = true ->
  healLocator page locator (context_of options) (world_at_healing locator options w)
  = (Fulfilled r, w2) ->
  findElement page locator options w
  = match healedLocator r with
    | Some healed =>
        if success r && JsString.truthy healed
        then (Fulfilled (page_locator healed),
              after (Logged info ("Using healed locator: " ++ healed)%string) w2)
        else (Rejected (NewError ("Could not heal locator: " ++ locator)%string), w2)
    | None => (Rejected (NewError ("Could not heal locator: " ++ locator)%string), w2)
    end.
Proof.
  unfold direct_resolution, findElement, locator_waitFor, world_at_healing,
    world_after_wait.
  intros H Hon Hheal.
  unfold try_catch, bind at 1, ask. rewrite H. cbn [outcome_of]. rewrite Hon.
  cbn [negb].
  erewrite bind_fulfilled; [|unfold Logger, emit; reflexivity].
  unfold after in Hheal. cbn [this trace] in *.
  erewrite bind_fulfilled; [|exact Hheal].
  destruct (healedLocator r) as [healed|]; [|reflexivity].
  destruct (success r && JsString.truthy healed); [|reflexivity].
  unfold bind, Logger, emit, ret, after. reflexivity.
Qed.

(** [findElement] leaves the engine as it was or as the call of
    [healLocator] that it made left it. *)
Lemma findElement_this page locator options w :
  this (snd (findElement page locator options w)) = this w
  \/ this (snd (findElement page locator options w))
     = this (snd (healLocator page locator (context_of options)
                    (world_at_healing locator options w))).
Proof.
  destruct (direct_resolution page locator options w) as [reason|u] eqn:Hdirect.
  - destruct (enableHealing_of options) eqn:Hon.
    + right.
      destruct (healLocator_returns page locator (context_of options)
                  (world_at_healing locator options w)) as (r & w2 & Hheal).
      rewrite (findElement_healing _ _ _ _ _ _ _ Hdirect Hon Hheal), Hheal.
      destruct (healedLocator r) as [healed|]; [|reflexivity].
      destruct (success r && JsString.truthy healed); reflexivity.
    + left. rewrite (findElement_disabled _ _ _ _ _ Hdirect Hon). reflexivity.
  - left. rewrite (findElement_direct _ _ _ _ _ Hdirect). reflexivity.
Qed.

(** Every world that calls lead to satisfies the invariant. *)
Lemma reachable_well_formed w : reachable w -> well_formed (this w).
Proof.
  induction 1 as [tr|c w Hreach IH|events w Hreach IH]; cbn [this].
  - apply well_formed_new.
  - destruct c as [page loc ctx|page loc options| |]; cbn [run_call].
    + destruct (healLocator_well_formed page loc ctx w IH) as (r & w' & Hrun & _ & Hwf).
      now rewrite Hrun.
    + destruct (findElement_this page loc options w) as [->| ->]; [exact IH|].
      destruct (healLocator_well_formed page loc (context_of options)
                  (world_at_healing loc options w) IH) as (r & w' & Hrun & _ & Hwf).
      now rewrite Hrun.
    + destruct IH as [Hc Hh Hck Hhk].
      split; cbn; auto. constructor.
    + exact IH.
  - exact IH.
Qed.

(* ===================================================================== *)
(** ** What [healLocator] promises about a success *)
(* ===================================================================== *)

(** C9. On an engine that calls have led to, [healLocator] returns a
    result that, when it is a success, carries a healed locator that is
    not empty, be it found by the trial loop or served from the cache; and
    then every value in the cache is a string that is not empty, and so is
    the healed locator of every success in the ledger. *)
Theorem healLocator_success_carries_locator page originalLocator elementContext w :
  reachable w ->
  exists r w',
    healLocator page originalLocator elementContext w = (Fulfilled r, w')
    /\ (success r = true ->
        exists healed, healedLocator r = Some healed /\ healed <> EmptyString)
    /\ (forall k v, JsMap.get k (locatorCache (this w')) = Some v -> v <> EmptyString)
    /\ (forall k r', JsMap.get k (healingHistory (this w')) = Some r' ->
        success r' = true ->
        exists healed, healedLocator r' = Some healed /\ healed <> EmptyString).
Proof.
  intros Hreach. apply reachable_well_formed in Hreach.
  destruct (healLocator_well_formed page originalLocator elementContext w Hreach)
    as (r & w' & Hrun & Hr & Hwf).
  exists r, w'. split; [exact Hrun|]. repeat split.
  - intros Hs. destruct (Hr Hs) as (healed & kind & H1 & H2 & _). eauto.
  - intros k v Hget. apply JsMapFacts.get_In in Hget.
    eapply wf_cache_values; eauto.
  - intros k r' Hget Hs. apply JsMapFacts.get_In in Hget.
    destruct (@wf_history_values _ Hwf _ _ Hget Hs) as (healed & kind & H1 & H2 & _).
    eauto.
Qed.

Lemma healLocator_success_carries_locator_witness :
  exists r w',
    healLocator late_page "#old" None world_healed_once = (Fulfilled r, w')
    /\ (success r = true ->
        exists healed, healedLocator r = Some healed /\ healed <> EmptyString)
    /\ (forall k v, JsMap.get k (locatorCache (this w')) = Some v -> v <> EmptyString)
    /\ (forall k r', JsMap.get k (healingHistory (this w')) = Some r' ->
        success r' = true ->
        exists healed, healedLocator r' = Some healed /\ healed <> EmptyString).
Proof.
  apply (healLocator_success_carries_locator late_page "#old" None world_healed_once).
  apply (@reachable_call (call_healLocator late_page "#old" None) new_world).
  apply (reachable_new []).
Defined.

(* ===================================================================== *)
(** ** What [findElement] returns and throws *)
(* ===================================================================== *)

(** C5. On an engine that calls have led to, [findElement] throws the
    error "Could not heal locator" exactly when the direct resolution of
    the locator fails, healing is enabled and the healing attempt fails.
    With healing enabled the failure of the direct resolution is never what
    is thrown; and when the healing attempt succeeds, [findElement] returns
    the locator made of the healed value. *)
Theorem findElement_could_not_heal page locator options w :
  reachable w ->
  exists r w2,
    healLocator page locator (context_of options) (world_at_healing locator options w)
    = (Fulfilled r, w2)
    /\ (fst (findElement page locator options w)
        = Rejected (NewError ("Could not heal locator: " ++ locator)%string)
        <-> (exists reason, direct_resolution page locator options w = inl reason)
            /\ enableHealing_of options = true
            /\ success r = false)
    /\ (enableHealing_of options = true ->
        forall reason, fst (findElement page locator options w) <> Rejected (Rejection reason))
    /\ ((exists reason, direct_resolution page locator options w = inl reason) ->
        enableHealing_of options = true ->
        success r = true ->
        exists healed,
          healedLocator r = Some healed
          /\ fst (findElement page locator options w) = Fulfilled (page_locator healed)).
Proof.
  intros Hreach. apply reachable_well_formed in Hreach.
  destruct (healLocator_well_formed page locator (context_of options)
              (world_at_healing locator options w) Hreach)
    as (r & w2 & Hheal & Hr & _).
  exists r, w2. split; [exact Hheal|].
  destruct (direct_resolution page locator options w) as [reason|u] eqn:Hdirect.
  - destruct (enableHealing_of options) eqn:Hon.
    + rewrite (findElement_healing _ _ _ _ _ _ _ Hdirect Hon Hheal).
      destruct (success r) eqn:Hs.
      * destruct (Hr Hs) as (healed & kind & Hh & Hne & _).
        rewrite Hh. apply truthy_nonempty in Hne. rewrite Hne. cbn.
        repeat split; try discriminate.
        -- intros (_ & _ & H). discriminate.
        -- intros _ _ _. exists healed. auto.
      * assert (Hthrow :
                 fst match healedLocator r with
                     | Some healed =>
                         if false && JsString.truthy healed
                         then (Fulfilled (page_locator healed),
                               after (Logged info ("Using healed locator: " ++ healed)%string) w2)
                         else (Rejected (NewError ("Could not heal locator: " ++ locator)%string), w2)
                     | None => (Rejected (NewError ("Could not heal locator: " ++ locator)%string), w2)
                     end
                 = Rejected (NewError ("Could not heal locator: " ++ locator)%string)).
        { destruct (healedLocator r); reflexivity. }
        rewrite Hthrow. repeat split; eauto; discriminate.
    + rewrite (findElement_disabled _ _ _ _ _ Hdirect Hon). cbn.
      repeat split; try discriminate.
      intros (_ & H & _). discriminate.
  - rewrite (findElement_direct _ _ _ _ _ Hdirect). cbn.
    repeat split; try discriminate.
    + intros ([reason H] & _). discriminate.
    + intros [reason H]. discriminate.
Qed.

Lemma findElement_could_not_heal_witness :
  exists r w2,
    healLocator stubborn_page "#old" (context_of None) (world_at_healing "#old" None new_world)
    = (Fulfilled r, w2)
    /\ (fst (findElement stubborn_page "#old" None new_world)
        = Rejected (NewError ("Could not heal locator: " ++ "#old")%string)
        <-> (exists reason, direct_resolution stubborn_page "#old" None new_world = inl reason)
            /\ enableHealing_of None = true
            /\ success r = false)
    /\ (enableHealing_of None = true ->
        forall reason,
          fst (findElement stubborn_page "#old" None new_world) <> Rejected (Rejection reason))
    /\ ((exists reason, direct_resolution stubborn_page "#old" None new_world = inl reason) ->
        enableHealing_of None = true ->
        success r = true ->
        exists healed,
          healedLocator r = Some healed
          /\ fst (findElement stubborn_page "#old" None new_world)
             = Fulfilled (page_locator healed)).
Proof.
  apply (findElement_could_not_heal stubborn_page "#old" None new_world).
  apply (reachable_new []).
Defined.

(** C6. With [enableHealing = false], a call of [findElement] whose direct
    resolution fails throws that very failure; the engine, cache and
    ledger, is as it was, and all that the call left behind is its wait on
    the original locator: [healLocator] and synthesis, which both leave
    events of their own, did not run. *)
Theorem findElement_healing_disabled page locator options w reason :
  enableHealing_of options = false ->
  direct_resolution page locator options w = inl reason ->
  exists w',
    findElement page locator options w = (Rejected (Rejection reason), w')
    /\ locatorCache (this w') = locatorCache (this w)
    /\ healingHistory (this w') = healingHistory (this w)
    /\ trace w'
       = trace w
         ++ [Asked (waitFor (first (page_locator locator)) (timeout_of options) "visible")].
Proof.
  intros Hoff Hdirect.
  rewrite (findElement_disabled _ _ _ _ _ Hdirect Hoff).
  eexists. split; [reflexivity|]. repeat split.
Qed.

Lemma findElement_healing_disabled_witness :
  exists w',
    findElement late_page "#old" healing_disabled world_healed_once
    = (Rejected (Rejection "TimeoutError: Timeout 5000ms exceeded."), w')
    /\ locatorCache (this w') = locatorCache (this world_healed_once)
    /\ healingHistory (this w') = healingHistory (this world_healed_once)
    /\ trace w'
       = trace world_healed_once
         ++ [Asked (waitFor (first (page_locator "#old")) (timeout_of healing_disabled)
                      "visible")].
Proof.
  apply (findElement_healing_disabled late_page "#old" healing_disabled world_healed_once
           "TimeoutError: Timeout 5000ms exceeded.");
    reflexivity.
Defined.

(** C10. When the direct resolution fails and [findElement] still returns
    a locator, that locator is [page.locator] of the healed value, a plain
    selector.  For a value served from the cache it is the cached value.
    For a value found by the trial loop it is the value of the winning
    strategy, which the loop had seen visible through the query of its
    kind; when that kind has a query of its own ([getByTestId],
    [getByText], [getByRole], [getByLabel], [getByPlaceholder]), the
    locator returned is not the one that was seen visible. *)
Theorem findElement_healed_handle page locator options w l w' :
  (exists reason, direct_resolution page locator options w = inl reason) ->
  findElement page locator options w = (Fulfilled l, w') ->
  (forall cached,
      JsMap.get locator (locatorCache (this w)) = Some cached -> l = page_locator cached)
  /\ (JsMap.get locator (locatorCache (this w)) = None ->
      exists s tr,
        seen_visible page tr s = true
        /\ JsMap.get locator (locatorCache (this w')) = Some (value s)
        /\ (exists n,
               JsMap.get locator (healingHistory (this w'))
               = Some (result_of_win locator s n))
        /\ l = page_locator (value s)
        /\ (has_own_query (type s) = true -> locator_for s <> l)).
Proof.
  intros [reason Hdirect] Hfind.
  destruct (enableHealing_of options) eqn:Hon;
    [|rewrite (findElement_disabled _ _ _ _ _ Hdirect Hon) in Hfind; discriminate].
  destruct (healLocator_returns page locator (context_of options)
              (world_at_healing locator options w)) as (r & w2 & Hheal).
  rewrite (findElement_healing _ _ _ _ _ _ _ Hdirect Hon Hheal) in Hfind.
  assert (Hthis : this (world_at_healing locator options w) = this w) by reflexivity.
  split.
  - intros cached Hget. rewrite <- Hthis in Hget.
    rewrite (healLocator_cached page _ (context_of options) _ _ Hget) in Hheal.
    injection Hheal as <- <-. cbn in Hfind.
    destruct (JsString.truthy cached); [|discriminate].
    now injection Hfind as <- _.
  - intros Hget. rewrite <- Hthis in Hget.
    destruct (healLocator_fresh page locator (context_of options) _ Hget)
      as (strategies & w1 & _ & _ &
          [(pre & s & post & _ & _ & Hvis & tr & Hrun)|(_ & tr & Hrun)]);
      rewrite Hrun in Hheal; injection Hheal as <- <-; cbn in Hfind;
      [|discriminate].
    destruct (JsString.truthy (value s)); [|discriminate].
    injection Hfind as <- <-.
    exists s, (trace w1 ++ map probe pre). cbn [this after locatorCache healingHistory].
    split; [exact Hvis|].
    split; [apply JsMapFacts.get_set_same|].
    split; [eexists; apply JsMapFacts.get_set_same|].
    split; [reflexivity|].
    unfold locator_for. destruct (type s); cbn; intros; discriminate.
Qed.

Lemma findElement_healed_handle_witness :
  (forall cached,
      JsMap.get "#old" (locatorCache (this new_world)) = Some cached ->
      page_locator "submit" = page_locator cached)
  /\ (JsMap.get "#old" (locatorCache (this new_world)) = None ->
      exists s tr,
        seen_visible late_page tr s = true
        /\ JsMap.get "#old"
             (locatorCache (this (snd (findElement late_page "#old" None new_world))))
           = Some (value s)
        /\ (exists n,
               JsMap.get "#old"
                 (healingHistory (this (snd (findElement late_page "#old" None new_world))))
               = Some (result_of_win "#old" s n))
        /\ page_locator "submit" = page_locator (value s)
        /\ (has_own_query (type s) = true -> locator_for s <> page_locator "submit")).
Proof.
  apply (findElement_healed_handle late_page "#old" None new_world
           (page_locator "submit") (snd (findElement late_page "#old" None new_world))).
  - exists "TimeoutError: Timeout 5000ms exceeded.". reflexivity.
  - vm_compute. reflexivity.
Defined.

(* ===================================================================== *)
(** ** The export *)
(* ===================================================================== *)

Lemma fold_export_entry entries acc :
  fold_left export_entry entries acc
  = acc ++ flat_map (export_entry []) entries.
Proof.
  revert acc. induction entries as [|[k r] rest IH]; intros acc; simpl.
  - now rewrite app_nil_r.
  - rewrite IH.
    destruct (healedLocator r) as [healed|]; [|reflexivity].
    destruct (strategy r) as [kind|]; [|reflexivity].
    destruct (success r && JsString.truthy healed && JsString.truthy kind);
      [|reflexivity].
    unfold push. now rewrite <- app_assoc.
Qed.

(** On well-formed entries the export keeps the successes, each as one
    triple, in their order. *)
Lemma export_successes entries :
  (forall k r, In (k, r) entries -> result_ok r) ->
  Forall2 exported_from
    (flat_map (export_entry []) entries)
    (filter (fun entry => success (snd entry)) entries).
Proof.
  induction entries as [|[k r] rest IH]; intros Hok; simpl; [constructor|].
  assert (IH' := IH (fun k' r' H => Hok k' r' (or_intror H))).
  destruct (success r) eqn:Hs.
  - destruct (Hok k r (or_introl eq_refl) Hs) as (healed & kind & Hh & Hne & Hk & Hkne).
    rewrite Hh, Hk.
    apply truthy_nonempty in Hne, Hkne. rewrite Hne, Hkne. cbn.
    constructor; [|exact IH'].
    unfold exported_from. cbn. auto.
  - destruct (healedLocator r); [destruct (strategy r)|]; cbn; exact IH'.
Qed.

(** On an engine that calls have led to, every success of the ledger has
    what the guard of the export asks for: [exportHealedLocators] returns
    one triple for each of them, in the order of the ledger, and the engine
    is as it was. *)
Lemma exportHealedLocators_complete w :
  reachable w ->
  exists exports w',
    exportHealedLocators w = (Fulfilled exports, w')
    /\ this w' = this w
    /\ Forall2 exported_from exports
         (filter (fun entry => success (snd entry)) (healingHistory (this w))).
Proof.
  intros Hreach. apply reachable_well_formed in Hreach.
  unfold exportHealedLocators. run.
  do 2 eexists. split; [reflexivity|]. split; [reflexivity|].
  rewrite fold_export_entry. cbn [app].
  apply export_successes. intros k r Hin. eapply wf_history_values; eauto.
Qed.

(* ===================================================================== *)
(** ** [toFixed(2)] and [parseFloat] *)
(* ===================================================================== *)

Module NumberFacts.

(** Reading one digit. *)
Lemma digits_value_digit k rest acc :
  (k < 10)%nat ->
  Number.digits_value (String (ascii_of_nat (48 + k)) rest) acc
  = Number.digits_value rest (10 * acc + Z.of_nat k)%Z.
Proof.
  intros Hk. cbn [Number.digits_value].
  rewrite nat_ascii_embedding by lia.
  replace ((48 <=? 48 + k) && (48 + k <=? 57))%nat with true
    by (symmetry; apply andb_true_intro; split; apply Nat.leb_le; lia).
  now replace (48 + k - 48)%nat with k by lia.
Qed.

(** Reading the digits that were written for a number gives the number
    back. *)
Lemma digits_value_uint d rest acc :
  Number.digits_value (NilEmpty.string_of_uint d ++ rest)%string (Z.of_nat acc)
  = Number.digits_value rest (Z.of_nat (Nat.of_uint_acc d acc)).
Proof.
  revert acc.
  induction d as [|d IH|d IH|d IH|d IH|d IH|d IH|d IH|d IH|d IH|d IH]; intros acc;
    [reflexivity|..];
    cbn [NilEmpty.string_of_uint String.append Nat.of_uint_acc];
    rewrite <- IH.
  1: etransitivity; [apply (digits_value_digit 0); lia|].
  2: etransitivity; [apply (digits_value_digit 1); lia|].
  3: etransitivity; [apply (digits_value_digit 2); lia|].
  4: etransitivity; [apply (digits_value_digit 3); lia|].
  5: etransitivity; [apply (digits_value_digit 4); lia|].
  6: etransitivity; [apply (digits_value_digit 5); lia|].
  7: etransitivity; [apply (digits_value_digit 6); lia|].
  8: etransitivity; [apply (digits_value_digit 7); lia|].
  9: etransitivity; [apply (digits_value_digit 8); lia|].
  10: etransitivity; [apply (digits_value_digit 9); lia|].
  all: f_equal; rewrite Nat.tail_mul_spec; lia.
Qed.

Lemma digits_value_of_nat n rest :
  Number.digits_value (JsString.of_nat n ++ rest)%string 0
  = Number.digits_value rest (Z.of_nat n).
Proof.
  unfold JsString.of_nat.
  change 0%Z with (Z.of_nat 0).
  rewrite (digits_value_uint (Nat.to_uint n) rest 0).
  change (Nat.of_uint_acc (Nat.to_uint n) 0) with (Nat.of_uint (Nat.to_uint n)).
  now rewrite DecimalNat.Unsigned.of_to.
Qed.

(** The digits of a number hold no full stop. *)
Lemma split_at_dot_uint d rest :
  Number.split_at_dot (NilEmpty.string_of_uint d ++ String "."%char rest)%string
  = (NilEmpty.string_of_uint d, rest).
Proof.
  induction d as [|d IH|d IH|d IH|d IH|d IH|d IH|d IH|d IH|d IH|d IH];
    [reflexivity|..];
    cbn [NilEmpty.string_of_uint String.append Number.split_at_dot];
    rewrite IH; reflexivity.
Qed.

(** A number below ten is written with one digit. *)
Lemma of_nat_digit n :
  (n < 10)%nat -> JsString.of_nat n = String (ascii_of_nat (48 + n)) EmptyString.
Proof.
  intros H. do 10 (destruct n as [|n]; [reflexivity|]). lia.
Qed.

Lemma two_digits_length n :
  (0 <= n < 100)%Z -> String.length (Number.two_digits n) = 2.
Proof.
  intros H. unfold Number.two_digits.
  rewrite !of_nat_digit; [reflexivity| |].
  - assert (0 <= n mod 10 < 10)%Z by (apply Z.mod_pos_bound; lia). lia.
  - assert (0 <= n / 10 < 10)%Z
      by (split; [apply Z.div_pos; lia | apply Z.div_lt_upper_bound; lia]).
    lia.
Qed.

Lemma digits_value_two_digits n acc :
  (0 <= n < 100)%Z ->
  Number.digits_value (Number.two_digits n) acc = Some (100 * acc + n)%Z.
Proof.
  intros H. unfold Number.two_digits.
  assert (H1 : (0 <= n mod 10 < 10)%Z) by (apply Z.mod_pos_bound; lia).
  assert (H2 : (0 <= n / 10 < 10)%Z)
    by (split; [apply Z.div_pos; lia | apply Z.div_lt_upper_bound; lia]).
  rewrite !of_nat_digit by lia.
  cbn [String.append].
  rewrite !digits_value_digit by lia.
  cbn [Number.digits_value]. f_equal.
  rewrite !Z2Nat.id by lia.
  pose proof (Z.div_mod n 10). lia.
Qed.

(** Parsing what [toFixed(2)] wrote for [n] hundredths gives the double
    nearest to [n / 100]. *)
Lemma parseFloat_fixed2_string n :
  (0 <= n)%Z ->
  Number.parseFloat (Number.fixed2_string n) = Some (Number.of_hundredths n).
Proof.
  intros Hn. unfold Number.parseFloat, Number.fixed2_string, JsString.of_nat.
  change ("." ++ Number.two_digits (n mod 100))%string
    with (String "."%char (Number.two_digits (n mod 100))).
  rewrite split_at_dot_uint.
  fold (JsString.of_nat (Z.to_nat (n / 100))).
  assert (Hm : (0 <= n mod 100 < 100)%Z) by (apply Z.mod_pos_bound; lia).
  rewrite digits_value_of_nat, digits_value_two_digits by exact Hm.
  rewrite two_digits_length by exact Hm.
  rewrite Z2Nat.id by (apply Z.div_pos; lia).
  replace (100 * (n / 100) + n mod 100)%Z with n by (pose proof (Z.div_mod n 100); lia).
  reflexivity.
Qed.

(** The count of hundredths of [toFixed(2)] is never negative. *)
Lemma toFixed2_hundredths_nonneg x n :
  Number.toFixed2_hundredths x = Some n -> (0 <= n)%Z.
Proof.
  unfold Number.toFixed2_hundredths.
  destruct x as [s| | |[|] m e]; try discriminate.
  - intros [= <-]. lia.
  - destruct (0 <=? e)%Z eqn:He; intros Heq.
    + assert (Hn : n = (Z.pos m * 100 * 2 ^ e)%Z) by congruence.
      apply Z.leb_le in He. assert (0 < 2 ^ e)%Z by (apply Z.pow_pos_nonneg; lia).
      rewrite Hn. apply Z.mul_nonneg_nonneg; lia.
    + assert (Hn : n = ((2 * 100 * Z.pos m + 2 ^ (- e)) / 2 ^ (- e + 1))%Z) by congruence.
      apply Z.leb_gt in He. rewrite Hn. apply Z.div_pos.
      * assert (0 < 2 ^ (- e))%Z by (apply Z.pow_pos_nonneg; lia). lia.
      * apply Z.pow_pos_nonneg; lia.
Qed.

(** [parseFloat(x.toFixed(2))] is the double nearest to the hundredths of
    [x]. *)
Lemma parseFloat_toFixed2 x :
  match Number.toFixed2 x with
  | Some s => Number.parseFloat s
  | None => None
  end
  = option_map Number.of_hundredths (Number.toFixed2_hundredths x).
Proof.
  unfold Number.toFixed2.
  destruct (Number.toFixed2_hundredths x) as [n|] eqn:E; [|reflexivity].
  cbn [option_map]. apply parseFloat_fixed2_string.
  now apply (toFixed2_hundredths_nonneg x).
Qed.

End NumberFacts.

(* ===================================================================== *)
(** ** The statistics *)
(* ===================================================================== *)

Lemma filter_values_length (m : JsMap.t HealingResult) :
  length (filter (fun r => success r) (JsMap.values m))
  = length (filter (fun entry => success (snd entry)) m).
Proof.
  unfold JsMap.values.
  induction m as [|[k r] rest IH]; simpl; [reflexivity|].
  destruct (success r); simpl; now rewrite IH.
Qed.

(** The world of [healed] successes among [total] calls is one that calls
    lead to. *)
Lemma world_of_outcomes_reachable healed total :
  reachable (world_of_outcomes healed total).
Proof.
  unfold world_of_outcomes.
  assert (H : forall l w, reachable w -> reachable (fold_left (heal_in_turn healed) l w)).
  { induction l as [|i l IH]; intros w Hw; simpl; [exact Hw|].
    apply IH. unfold heal_in_turn. now constructor. }
  apply H. apply (reachable_new []).
Qed.

(** C7, as stated, fails.  After 160 healings of which 23 succeeded the
    exact rate is 14.375, which rounds to 14.38 with a tie going up and
    with a tie going to the even neighbour alike; the doubles [23 / 160]
    and then [* 100] give 14.374999999999998, and [getHealingStats]
    returns 14.37. *)
Lemma successRate_misses_a_tie :
  ~ stats_as_claimed round_half_up (this (world_of_outcomes 23 160))
  /\ ~ stats_as_claimed round_half_even (this (world_of_outcomes 23 160))
  /\ successRate (getHealingStats (this (world_of_outcomes 23 160)))
     = Some (Number.of_hundredths 1437).
Proof.
  split; [|split].
  - intros (_ & _ & _ & _ & H). vm_compute in H. discriminate.
  - intros (_ & _ & _ & _ & H). vm_compute in H. discriminate.
  - vm_compute. reflexivity.
Qed.

(** C7, amended.  For a ledger of N entries of which S are successes,
    [getHealingStats] returns N as total, S as successful, N - S as failed
    and the size of the cache.  Its success rate is 0 when N = 0.
    Otherwise it is read off the double [x = (S / N) * 100], computed in
    that order: the double nearest to [n / 100], where [n] is the integer
    nearest to [100 * x], the larger of two. *)
Theorem getHealingStats_fields self :
  totalAttempts (getHealingStats self) = ledger_entries self
  /\ successful (getHealingStats self) = ledger_successes self
  /\ failed (getHealingStats self) = (ledger_entries self - ledger_successes self)%Z
  /\ cachedLocators (getHealingStats self) = Z.of_nat (JsMap.size (locatorCache self))
  /\ successRate (getHealingStats self)
     = if (ledger_entries self =? 0)%Z then Some (Number.of_Z 0)
       else option_map Number.of_hundredths
              (Number.toFixed2_hundredths
                 (Number.mul
                    (Number.div (Number.of_Z (ledger_successes self))
                       (Number.of_Z (ledger_entries self)))
                    (Number.of_Z 100))).
Proof.
  unfold getHealingStats, ledger_entries, ledger_successes, JsMap.size.
  cbn [totalAttempts successful failed cachedLocators successRate].
  rewrite filter_values_length.
  repeat split.
  rewrite NumberFacts.parseFloat_toFixed2.
  destruct (healingHistory self) as [|entry rest]; [reflexivity|].
  replace (0 <? Z.of_nat (length (entry :: rest)))%Z with true
    by (symmetry; apply Z.ltb_lt; simpl length; lia).
  replace (Z.of_nat (length (entry :: rest)) =? 0)%Z with false
    by (symmetry; apply Z.eqb_neq; simpl length; lia).
  reflexivity.
Qed.

(* ===================================================================== *)
(** ** More on synthesis *)
(* ===================================================================== *)

(** No strategy of the rows is of the kind [xpath]. *)
Lemma pushed_strategies_types a :
  Forall (fun s => type s <> xpath) (pushed_strategies a).
Proof.
  unfold pushed_strategies. apply Forall_flat_map.
  unfold pushed_rows.
  repeat (apply Forall_cons; [apply row_strategy_Forall; intros v E; simpl|]);
    try apply Forall_nil; discriminate.
Qed.

(** The rows give at most eight strategies. *)
Lemma pushed_strategies_length a : length (pushed_strategies a) <= 8.
Proof.
  unfold pushed_strategies, pushed_rows.
  destruct (present (attr_data_testid a)), (present (attr_id a)),
    (present (attr_name a)), (present (attr_aria_label a)),
    (present (attr_placeholder a)), (present (attr_role a)),
    (non_blank_text (text_content a)), (pushed_classes (attr_class a));
    simpl; lia.
Qed.

(** The priorities of the rows lie between 1 and 8. *)
Lemma pushed_strategies_priorities a :
  Forall (fun s => (1 <= priority s <= 8)%Z) (pushed_strategies a).
Proof.
  unfold pushed_strategies. apply Forall_flat_map.
  unfold pushed_rows.
  repeat (apply Forall_cons; [apply row_strategy_Forall; intros v E; simpl|]);
    try apply Forall_nil; lia.
Qed.

(** What synthesis returns, for any page and any world. *)
Lemma generateAlternativeStrategies_shape page originalLocator context w strategies w1 :
  generateAlternativeStrategies page originalLocator context w = (Fulfilled strategies, w1) ->
  this w1 = this w
  /\ length strategies <= 8
  /\ ascending strategies
  /\ Forall (fun s => value s <> EmptyString) strategies
  /\ Forall (fun s => type s <> xpath) strategies
  /\ Forall (fun s => (1 <= priority s <= 8)%Z) strategies.
Proof.
  intros Hgen.
  destruct (generateAlternativeStrategies_run page originalLocator context w)
    as (strategies0 & events & Hgen0 & _ & _ & Hshape).
  rewrite Hgen in Hgen0. injection Hgen0 as <- ->.
  split; [reflexivity|].
  destruct Hshape as [->|[a ->]].
  - repeat split; try constructor. simpl. lia.
  - repeat split.
    + apply pushed_strategies_length.
    + apply pushed_strategies_ascending.
    + apply pushed_strategies_values.
    + apply pushed_strategies_types.
    + apply pushed_strategies_priorities.
Qed.

(** The trial loop on a list whose first strategy seen visible is known:
    the strategies before it are probed in turn, it is probed and wins, and
    those after it are not looked at. *)
Lemma trial_loop_first_visible page originalLocator pre s post n w :
  none_visible page (trace w) pre = true ->
  seen_visible page (trace w ++ map probe pre) s = true ->
  trial_loop page originalLocator (pre ++ s :: post) n w
  = (Fulfilled (Returns (result_of_win originalLocator s (n + length pre + 1))),
     {| this :=
          {| healingHistory :=
               JsMap.set originalLocator
                 (result_of_win originalLocator s (n + length pre + 1))
                 (healingHistory (this w));
             locatorCache :=
               JsMap.set originalLocator (value s) (locatorCache (this w)) |};
        trace :=
          trace w ++ map probe (pre ++ [s])
          ++ [Logged info ("Successfully healed locator using "
                           ++ type_name (type s) ++ ": " ++ value s)%string] |}).
Proof.
  intros Hnone Hvis.
  destruct (trial_loop_run page originalLocator (pre ++ s :: post) n w)
    as [(pre' & s' & post' & Hsplit & Hnone' & Hvis' & Hrun)|[Hnone' _]].
  - assert (Hpre : pre' = pre /\ s' = s).
    { clear Hrun. revert pre' w Hsplit Hnone Hvis Hnone' Hvis'.
      induction pre as [|p pre IH]; intros pre' w Hsplit Hnone Hvis Hnone' Hvis'.
      - destruct pre' as [|p' pre'].
        + simpl in Hsplit. injection Hsplit as -> _. auto.
        + simpl in Hsplit. injection Hsplit as <- _.
          simpl in Hnone', Hvis. rewrite app_nil_r in Hvis.
          rewrite Hvis in Hnone'. discriminate.
      - destruct pre' as [|p' pre'].
        + simpl in Hsplit. injection Hsplit as <- _.
          simpl in Hnone, Hvis'. rewrite app_nil_r in Hvis'.
          rewrite Hvis' in Hnone. discriminate.
        + simpl in Hsplit. injection Hsplit as <- Hsplit.
          simpl in Hnone, Hnone', Hvis, Hvis'.
          apply andb_prop in Hnone as [_ Hnone].
          apply andb_prop in Hnone' as [_ Hnone'].
          destruct (IH pre' (after (probe p) w)) as [-> ->]; auto;
            unfold after; cbn [trace]; rewrite <- ?app_assoc; auto. }
    destruct Hpre as [-> ->]. exact Hrun.
  - apply none_visible_split in Hnone'. congruence.
Qed.

(* ===================================================================== *)
(** ** The ledger and the cache agree *)
(* ===================================================================== *)

Lemma consistent_new : consistent new_TestHealer.
Proof. split; simpl; discriminate. Qed.

Lemma get_set_cases (V : Type) k k' (v : V) m :
  JsMap.get k' (JsMap.set k v m)
  = if String.eqb k' k then Some v else JsMap.get k' m.
Proof.
  destruct (String.eqb k' k) eqn:E.
  - apply String.eqb_eq in E. subst. apply JsMapFacts.get_set_same.
  - apply String.eqb_neq in E. now apply JsMapFacts.get_set_other.
Qed.

Lemma ledger_entry_ok_win originalLocator s attempts :
  value s <> EmptyString -> type s <> xpath -> 1 <= attempts <= 8 ->
  ledger_entry_ok originalLocator (result_of_win originalLocator s attempts).
Proof.
  intros Hv Ht Ha. unfold ledger_entry_ok. cbn.
  repeat split; try lia; try discriminate.
  exists (type s), (value s). auto.
Qed.

Lemma ledger_entry_ok_exhaustion originalLocator attempts :
  attempts <= 8 ->
  ledger_entry_ok originalLocator (result_of_exhaustion originalLocator attempts).
Proof.
  intros Ha. unfold ledger_entry_ok. cbn. repeat split; try lia; discriminate.
Qed.

(** [healLocator] keeps the ledger and the cache in agreement. *)
Lemma healLocator_consistent page originalLocator elementContext w :
  consistent (this w) ->
  consistent (this (snd (healLocator page originalLocator elementContext w))).
Proof.
  intros [Hledger Hcache].
  destruct (JsMap.get originalLocator (locatorCache (this w))) as [c|] eqn:Hget.
  - rewrite (healLocator_cached page _ elementContext _ _ Hget). now split.
  - destruct (healLocator_fresh page originalLocator elementContext w Hget)
      as (strategies & w1 & Hgen & _ &
          [(pre & s & post & Hsplit & _ & _ & tr & Hrun)|(_ & tr & Hrun)]);
      rewrite Hrun; cbn [snd this];
      apply generateAlternativeStrategies_shape in Hgen
        as (_ & Hlen & _ & Hvalues & Htypes & _).
    + assert (Hin : In s strategies)
        by (subst strategies; apply in_or_app; right; now left).
      assert (Hok : ledger_entry_ok originalLocator
                      (result_of_win originalLocator s (length pre + 1))).
      { rewrite Forall_forall in Hvalues, Htypes.
        apply ledger_entry_ok_win; auto.
        subst strategies. rewrite length_app in Hlen. simpl in Hlen. lia. }
      split; cbn [healingHistory locatorCache]; intros k x; rewrite !get_set_cases;
        destruct (String.eqb k originalLocator) eqn:E.
      * apply String.eqb_eq in E. subst k. now intros [= <-].
      * apply Hledger.
      * intros [= <-]. eexists. split; [reflexivity|]. now split.
      * apply Hcache.
    + split; cbn [healingHistory locatorCache]; intros k x.
      * rewrite get_set_cases. destruct (String.eqb k originalLocator) eqn:E.
        -- apply String.eqb_eq in E. subst k. intros [= <-].
           now apply ledger_entry_ok_exhaustion.
        -- apply Hledger.
      * intros Hk. rewrite get_set_cases.
        destruct (String.eqb k originalLocator) eqn:E.
        -- apply String.eqb_eq in E. subst k. congruence.
        -- now apply Hcache.
Qed.

(** Every world that calls lead to has its ledger and its cache in
    agreement. *)
Lemma reachable_consistent w : reachable w -> consistent (this w).
Proof.
  induction 1 as [tr|c w Hreach IH|events w Hreach IH]; cbn [this].
  - apply consistent_new.
  - destruct c as [page loc ctx|page loc options| |]; cbn [run_call].
    + now apply healLocator_consistent.
    + destruct (findElement_this page loc options w) as [->| ->]; [exact IH|].
      now apply (healLocator_consistent page loc (context_of options)
                   (world_at_healing loc options w)).
    + destruct IH as [Hledger _]. split; cbn; [exact Hledger | discriminate].
    + exact IH.
  - exact IH.
Qed.

(** In a map with distinct keys, an entry is what [get] finds. *)
Lemma In_get (V : Type) k (v : V) m :
  NoDup (JsMap.keys m) -> In (k, v) m -> JsMap.get k m = Some v.
Proof.
  induction m as [|[k' v'] rest IH]; simpl; [intros _ []|].
  intros Hnd [Heq|Hin]; inversion Hnd as [|? ? Hnotin Hrest]; subst.
  - injection Heq as -> ->. now rewrite String.eqb_refl.
  - destruct (String.eqb k k') eqn:E; [|auto].
    apply String.eqb_eq in E. subst k'.
    exfalso. apply Hnotin. change k with (fst (k, v)). now apply in_map.
Qed.

(* ===================================================================== *)
(** ** The events of a healing *)
(* ===================================================================== *)

(** Synthesis starts with its visibility check of the original locator;
    when the check does not answer [true] it stops there with no
    strategy. *)
Lemma generateAlternativeStrategies_events page originalLocator context w :
  exists strategies tail,
    generateAlternativeStrategies page originalLocator context w
    = (Fulfilled strategies,
       {| this := this w;
          trace := trace w
                   ++ Asked (isVisible (first (page_locator originalLocator)) None) :: tail |})
    /\ length tail <= 8
    /\ forallb is_query tail = true
    /\ filter is_probe tail = []
    /\ (answer_isVisible page (trace w) (first (page_locator originalLocator)) None
        <> inr true ->
        strategies = [] /\ tail = []).
Proof.
  unfold generateAlternativeStrategies, locator_isVisible.
  erewrite bind_fulfilled; [|apply catch_ask].
  destruct (answer_isVisible page (trace w) (first (page_locator originalLocator)) None)
    as [reason|[|]] eqn:Hvis.
  - exists [], []. unfold ret, after; simpl. repeat split; auto. lia.
  - destruct (read_attributes_run page (first (page_locator originalLocator))
                (after (Asked (isVisible (first (page_locator originalLocator)) None)) w))
      as [a Ha].
    erewrite bind_fulfilled; [|exact Ha].
    exists (Array_sort by_priority (build_strategies a)),
      (attribute_reads (first (page_locator originalLocator))).
    unfold ret, after; cbn [this trace]. rewrite <- app_assoc.
    split; [reflexivity|]. split; [simpl; lia|]. split; [reflexivity|].
    split; [reflexivity|].
    intros H. now elim H.
  - exists [], []. unfold ret, after; simpl. repeat split; auto. lia.
Qed.

(** A healing that is not served from the cache, with all its events:
    the log line, synthesis, the probes up to the winner or of all the
    strategies, and the closing log line. *)
Lemma healLocator_fresh_events page originalLocator elementContext w :
  JsMap.get originalLocator (locatorCache (this w)) = None ->
  exists strategies w1 tail,
    generateAlternativeStrategies page originalLocator elementContext
      (after (Logged info ("Attempting to heal locator: " ++ originalLocator)%string) w)
    = (Fulfilled strategies, w1)
    /\ this w1 = this w
    /\ trace w1 = trace w ++ synthesis_start originalLocator ++ tail
    /\ forallb is_query tail = true
    /\ filter is_probe tail = []
    /\ ((exists pre s post,
           strategies = pre ++ s :: post
           /\ none_visible page (trace w1) pre = true
           /\ seen_visible page (trace w1 ++ map probe pre) s = true
           /\ healLocator page originalLocator elementContext w
              = (Fulfilled (result_of_win originalLocator s (length pre + 1)),
                 {| this :=
                      {| healingHistory :=
                           JsMap.set originalLocator
                             (result_of_win originalLocator s (length pre + 1))
                             (healingHistory (this w));
                         locatorCache :=
                           JsMap.set originalLocator (value s) (locatorCache (this w)) |};
                    trace :=
                      trace w1 ++ map probe (pre ++ [s])
                      ++ [Logged info ("Successfully healed locator using "
                                       ++ type_name (type s) ++ ": " ++ value s)%string] |}))
        \/ (none_visible page (trace w1) strategies = true
            /\ healLocator page originalLocator elementContext w
               = (Fulfilled (result_of_exhaustion originalLocator (length strategies)),
                  {| this :=
                       {| healingHistory :=
                            JsMap.set originalLocator
                              (result_of_exhaustion originalLocator (length strategies))
                              (healingHistory (this w));
                          locatorCache := locatorCache (this w) |};
                     trace :=
                       trace w1 ++ map probe strategies
                       ++ [Logged error
                             ("Failed to heal locator after "
                              ++ JsString.of_nat (length strategies)
                              ++ " attempts: " ++ originalLocator)%string] |}))).
Proof.
  intros Hget.
  destruct (generateAlternativeStrategies_events page originalLocator elementContext
              (after (Logged info ("Attempting to heal locator: " ++ originalLocator)%string) w))
    as (strategies & tail & Hgen & _ & Htail & Hprobes & _).
  exists strategies. eexists. exists tail.
  split; [exact Hgen|]. split; [reflexivity|].
  split; [unfold after, synthesis_start; cbn [this trace app];
          now rewrite <- app_assoc|].
  split; [exact Htail|]. split; [exact Hprobes|].
  unfold healLocator.
  erewrite bind_fulfilled; [|unfold Logger, emit; reflexivity].
  erewrite bind_fulfilled; [|unfold get_this; reflexivity].
  cbn [this trace]. rewrite Hget.
  erewrite bind_fulfilled; [|exact Hgen].
  match goal with
  | |- context [bind (trial_loop page originalLocator strategies 0) _ ?w1] =>
      destruct (trial_loop_run page originalLocator strategies 0 w1)
        as [(pre & s & post & Hsplit & Hnone & Hvis & Hrun)|[Hnone Hrun]]
  end.
  - left. exists pre, s, post. cbn [this trace] in *.
    repeat split; auto.
    erewrite bind_fulfilled; [|exact Hrun]. unfold ret. reflexivity.
  - right. cbn [this trace] in *. split; auto.
    erewrite bind_fulfilled; [|exact Hrun].
    unfold bind, healingHistory_set, Logger, emit, ret. cbn [this trace fst snd].
    rewrite <- app_assoc. reflexivity.
Qed.

(** After a healing that succeeded, the cache holds the healed locator
    under the original one. *)
Lemma healLocator_success_cached page originalLocator elementContext w r w' :
  healLocator page originalLocator elementContext w = (Fulfilled r, w') ->
  success r = true ->
  exists healed,
    healedLocator r = Some healed
    /\ JsMap.get originalLocator (locatorCache (this w')) = Some healed.
Proof.
  intros Hrun Hs.
  destruct (JsMap.get originalLocator (locatorCache (this w))) as [c|] eqn:Hget.
  - rewrite (healLocator_cached page _ elementContext _ _ Hget) in Hrun.
    injection Hrun as <- <-. exists c. auto.
  - destruct (healLocator_fresh page originalLocator elementContext w Hget)
      as (strategies & w1 & _ & _ &
          [(pre & s & post & _ & _ & _ & tr & Hrun')|(_ & tr & Hrun')]);
      rewrite Hrun' in Hrun; injection Hrun as <- <-; [|discriminate].
    exists (value s). split; [reflexivity|].
    cbn [this locatorCache]. apply JsMapFacts.get_set_same.
Qed.

(* ===================================================================== *)
(** ** Healing once, healing again *)
(* ===================================================================== *)

(** A call of [healLocator] leaves every entry that the cache has as it
    is. *)
Lemma healLocator_keeps_cache_entry page originalLocator elementContext w k v :
  JsMap.get k (locatorCache (this w)) = Some v ->
  JsMap.get k (locatorCache (this (snd (healLocator page originalLocator elementContext w))))
  = Some v.
Proof.
  intros Hk.
  destruct (JsMap.get originalLocator (locatorCache (this w))) as [c|] eqn:Hget.
  - now rewrite (healLocator_cached page _ elementContext _ _ Hget).
  - assert (Hne : k <> originalLocator) by congruence.
    destruct (healLocator_fresh page originalLocator elementContext w Hget)
      as (strategies & w1 & _ & _ &
          [(pre & s & post & _ & _ & _ & tr & Hrun)|(_ & tr & Hrun)]);
      rewrite Hrun; cbn [snd this locatorCache]; [|exact Hk].
    now rewrite JsMapFacts.get_set_other.
Qed.

(** An entry of the cache stays as it is until [clearCache] is called. *)
Lemma later_keeps_cache_entry w0 w k v :
  later_without_clear w0 w ->
  JsMap.get k (locatorCache (this w0)) = Some v ->
  JsMap.get k (locatorCache (this w)) = Some v.
Proof.
  intros Hlater Hk.
  induction Hlater as [|c w Hlater IH Hc|events w Hlater IH]; auto.
  destruct c as [page loc ctx|page loc options| |]; cbn [run_call];
    [| |discriminate|exact IH].
  - now apply healLocator_keeps_cache_entry.
  - destruct (findElement_this page loc options w) as [->| ->]; [exact IH|].
    now apply (healLocator_keeps_cache_entry page loc (context_of options)
                 (world_at_healing loc options w)).
Qed.

(** X1. Once [healLocator] has returned a success for a locator, every
    later call for that locator is served from the cache with the same
    healed locator, until [clearCache] is called: whatever calls of
    [healLocator], [findElement] and [exportHealedLocators] came in
    between, whatever happened outside the engine, and whatever the page of
    the later call shows.  The cached value is not checked again. *)
Theorem healLocator_success_then_cache_hit
  page originalLocator elementContext w r w' :
  healLocator page originalLocator elementContext w = (Fulfilled r, w') ->
  success r = true ->
  exists healed,
    healedLocator r = Some healed
    /\ forall w'' page2 context2,
        later_without_clear w' w'' ->
        healLocator page2 originalLocator context2 w''
        = (Fulfilled (result_of_cache originalLocator healed),
           {| this := this w'';
              trace := trace w''
                       ++ [Logged info ("Attempting to heal locator: "
                                        ++ originalLocator)%string;
                           Logged info ("Using cached healed locator: "
                                        ++ healed)%string] |}).
Proof.
  intros Hrun Hs.
  destruct (healLocator_success_cached _ _ _ _ _ _ Hrun Hs) as (healed & Hh & Hget).
  exists healed. split; [exact Hh|].
  intros w'' page2 context2 Hlater.
  apply healLocator_cached.
  now apply (later_keeps_cache_entry w' w'').
Qed.

Lemma healLocator_success_then_cache_hit_witness :
  exists healed,
    healedLocator (result_of_win "#old" by_testid 1) = Some healed
    /\ forall w'' page2 context2,
        later_without_clear world_healed_once w'' ->
        healLocator page2 "#old" context2 w''
        = (Fulfilled (result_of_cache "#old" healed),
           {| this := this w'';
              trace := trace w''
                       ++ [Logged info ("Attempting to heal locator: " ++ "#old")%string;
                           Logged info ("Using cached healed locator: "
                                        ++ healed)%string] |}).
Proof.
  apply (healLocator_success_then_cache_hit late_page "#old" None new_world
           (result_of_win "#old" by_testid 1) world_healed_once).
  - vm_compute. reflexivity.
  - reflexivity.
Defined.

(** X2. [clearCache] empties the cache and leaves the ledger, and with it
    the export, as they were.  The next [healLocator], for any locator, is
    not served from the cache: after its log line it asks the browser
    whether the original locator is visible, and its result is not marked
    ["cached"]. *)
Theorem clearCache_forces_synthesis w page originalLocator elementContext :
  exists w1,
    clearCache w = (Fulfilled tt, w1)
    /\ locatorCache (this w1) = []
    /\ healingHistory (this w1) = healingHistory (this w)
    /\ trace w1 = trace w ++ [Logged info "Healer cache cleared"]
    /\ fst (exportHealedLocators w1) = fst (exportHealedLocators w)
    /\ exists r w2 tail,
        healLocator page originalLocator elementContext w1 = (Fulfilled r, w2)
        /\ trace w2 = trace w1 ++ synthesis_start originalLocator ++ tail
        /\ strategy r <> Some "cached".
Proof.
  eexists. split; [unfold clearCache; run; reflexivity|].
  cbn [this trace locatorCache healingHistory].
  repeat split.
  match goal with
  | |- context [healLocator _ _ _ ?w1] =>
      destruct (healLocator_fresh_events page originalLocator elementContext w1 eq_refl)
        as (strategies & w1' & tail & _ & _ & Htrace & _ & _ &
            [(pre & s & post & _ & _ & _ & Hrun)|(_ & Hrun)])
  end;
    rewrite Hrun; do 3 eexists; (split; [reflexivity|]); cbn [trace] in *;
    rewrite Htrace, <- !app_assoc.
  - split; [reflexivity|]. cbn. destruct (type s); discriminate.
  - split; [reflexivity|]. cbn. discriminate.
Qed.

(** X3. In a healing that is not served from the cache, the first
    synthesized strategy that is seen visible wins: the attempts of the
    result are its place in the list, counted from 1, its value goes to the
    cache and its result to the ledger, the strategies before it were each
    probed once, and no strategy after it is probed. *)
Theorem healLocator_first_visible_wins
  page originalLocator elementContext w pre s post w1 :
  JsMap.get originalLocator (locatorCache (this w)) = None ->
  generateAlternativeStrategies page originalLocator elementContext
    (after (Logged info ("Attempting to heal locator: " ++ originalLocator)%string) w)
  = (Fulfilled (pre ++ s :: post), w1) ->
  none_visible page (trace w1) pre = true ->
  seen_visible page (trace w1 ++ map probe pre) s = true ->
  healLocator page originalLocator elementContext w
  = (Fulfilled (result_of_win originalLocator s (length pre + 1)),
     {| this :=
          {| healingHistory :=
               JsMap.set originalLocator
                 (result_of_win originalLocator s (length pre + 1))
                 (healingHistory (this w));
             locatorCache :=
               JsMap.set originalLocator (value s) (locatorCache (this w)) |};
        trace :=
          trace w1 ++ map probe (pre ++ [s])
          ++ [Logged info ("Successfully healed locator using "
                           ++ type_name (type s) ++ ": " ++ value s)%string] |}).
Proof.
  intros Hget Hgen Hnone Hvis.
  assert (Hthis : this w1 = this w).
  { now apply generateAlternativeStrategies_shape in Hgen as [H _]. }
  unfold healLocator.
  erewrite bind_fulfilled; [|unfold Logger, emit; reflexivity].
  erewrite bind_fulfilled; [|unfold get_this; reflexivity].
  cbn [this trace]. rewrite Hget.
  erewrite bind_fulfilled; [|exact Hgen].
  erewrite bind_fulfilled;
    [|apply (trial_loop_first_visible page originalLocator pre s post 0 w1 Hnone Hvis)].
  unfold ret. rewrite Hthis. reflexivity.
Qed.

Lemma healLocator_first_visible_wins_witness :
  healLocator id_page "#old" None new_world
  = (Fulfilled (result_of_win "#old" by_id 2),
     {| this :=
          {| healingHistory :=
               JsMap.set "#old" (result_of_win "#old" by_id 2)
                 (healingHistory (this new_world));
             locatorCache := JsMap.set "#old" (value by_id) (locatorCache (this new_world)) |};
        trace :=
          trace (snd (generateAlternativeStrategies id_page "#old" None
                        (after (Logged info "Attempting to heal locator: #old") new_world)))
          ++ map probe ([by_testid] ++ [by_id])
          ++ [Logged info ("Successfully healed locator using "
                           ++ type_name (type by_id) ++ ": " ++ value by_id)%string] |}).
Proof.
  apply (healLocator_first_visible_wins id_page "#old" None new_world
           [by_testid] by_id [by_classes]
           (snd (generateAlternativeStrategies id_page "#old" None
                   (after (Logged info "Attempting to heal locator: #old") new_world))));
    vm_compute; reflexivity.
Defined.

(** A healing whose synthesis sees nothing: a failure with 0 attempts. *)
Lemma healLocator_unseen page originalLocator elementContext w :
  JsMap.get originalLocator (locatorCache (this w)) = None ->
  answer_isVisible page
    (trace w ++ [Logged info ("Attempting to heal locator: " ++ originalLocator)%string])
    (first (page_locator originalLocator)) None <> inr true ->
  healLocator page originalLocator elementContext w
  = (Fulfilled (result_of_exhaustion originalLocator 0),
     {| this :=
          {| healingHistory :=
               JsMap.set originalLocator (result_of_exhaustion originalLocator 0)
                 (healingHistory (this w));
             locatorCache := locatorCache (this w) |};
        trace :=
          trace w ++ synthesis_start originalLocator
          ++ [Logged error ("Failed to heal locator after 0 attempts: "
                            ++ originalLocator)%string] |}).
Proof.
  intros Hget Hvis.
  destruct (generateAlternativeStrategies_events page originalLocator elementContext
              (after (Logged info ("Attempting to heal locator: " ++ originalLocator)%string) w))
    as (strategies & tail & Hgen & _ & _ & _ & Hnone).
  destruct (Hnone Hvis) as [-> ->].
  unfold healLocator.
  erewrite bind_fulfilled; [|unfold Logger, emit; reflexivity].
  erewrite bind_fulfilled; [|unfold get_this; reflexivity].
  cbn [this trace]. rewrite Hget.
  erewrite bind_fulfilled; [|exact Hgen].
  cbn [trial_loop].
  unfold bind, healingHistory_set, Logger, emit, ret, after, synthesis_start.
  cbn [this trace fst snd JsString.of_nat].
  rewrite <- !app_assoc. reflexivity.
Qed.

(** X4. Synthesis reads the attributes of the element that the original
    locator still finds.  When the original locator has no cache entry and
    its visibility check answers [false] or is rejected, nothing is read
    and nothing is tried: [healLocator] returns a failure with 0 attempts,
    writes it to the ledger, leaves the cache as it was and has asked the
    browser that one question. *)
Theorem healLocator_nothing_to_harvest page originalLocator elementContext w :
  JsMap.get originalLocator (locatorCache (this w)) = None ->
  answer_isVisible page
    (trace w ++ [Logged info ("Attempting to heal locator: " ++ originalLocator)%string])
    (first (page_locator originalLocator)) None <> inr true ->
  healLocator page originalLocator elementContext w
  = (Fulfilled (result_of_exhaustion originalLocator 0),
     {| this :=
          {| healingHistory :=
               JsMap.set originalLocator (result_of_exhaustion originalLocator 0)
                 (healingHistory (this w));
             locatorCache := locatorCache (this w) |};
        trace :=
          trace w ++ synthesis_start originalLocator
          ++ [Logged error ("Failed to heal locator after 0 attempts: "
                            ++ originalLocator)%string] |}).
Proof.
  intros Hget Hvis.
  rewrite (healLocator_unseen page originalLocator elementContext w Hget Hvis).
  reflexivity.
Qed.

Lemma healLocator_nothing_to_harvest_witness :
  healLocator broken_page "#gone" None new_world
  = (Fulfilled (result_of_exhaustion "#gone" 0),
     {| this :=
          {| healingHistory :=
               JsMap.set "#gone" (result_of_exhaustion "#gone" 0)
                 (healingHistory (this new_world));
             locatorCache := locatorCache (this new_world) |};
        trace :=
          trace new_world ++ synthesis_start "#gone"
          ++ [Logged error ("Failed to heal locator after 0 attempts: " ++ "#gone")%string] |}).
Proof.
  apply (healLocator_nothing_to_harvest broken_page "#gone" None new_world).
  - reflexivity.
  - discriminate.
Defined.

(* ===================================================================== *)
(** ** What calls leave in the ledger and the cache *)
(* ===================================================================== *)

(** Keeping some entries of a map with distinct keys keeps the keys
    distinct. *)
Lemma keys_filter_NoDup (V : Type) (f : string * V -> bool) (m : JsMap.t V) :
  NoDup (JsMap.keys m) -> NoDup (JsMap.keys (filter f m)).
Proof.
  unfold JsMap.keys.
  induction m as [|entry rest IH]; simpl; intros Hnd; [constructor|].
  inversion Hnd as [|? ? Hnotin Hrest]; subst.
  destruct (f entry); simpl; [|auto].
  constructor; [|auto].
  intros Hin. apply Hnotin.
  apply in_map_iff in Hin as (e & He & Hin).
  apply filter_In in Hin as [Hin _].
  apply in_map_iff. eauto.
Qed.

(** X5. In every world that calls lead to, each entry of the cache stands
    for a success recorded in the ledger under the same original locator,
    with the cached value as healed locator; that record was made by the
    trial loop, with at least one attempt, and is not marked
    ["cached"]. *)
Theorem cache_entries_are_ledger_successes w :
  reachable w ->
  forall k v,
    JsMap.get k (locatorCache (this w)) = Some v ->
    exists r,
      JsMap.get k (healingHistory (this w)) = Some r
      /\ success r = true
      /\ healedLocator r = Some v
      /\ originalLocator r = k
      /\ 1 <= attempts r
      /\ strategy r <> Some "cached".
Proof.
  intros Hreach k v Hget.
  destruct (reachable_consistent w Hreach) as [Hledger Hcache].
  destruct (Hcache k v Hget) as (r & Hr & Hs & Hh).
  exists r. repeat split; auto.
  - apply (Hledger k r Hr).
  - destruct (Hledger k r Hr) as (_ & _ & Hwin & _).
    now destruct (Hwin Hs).
  - destruct (Hledger k r Hr) as (_ & _ & Hwin & _).
    destruct (Hwin Hs) as (_ & t & healed & _ & -> & _).
    destruct t; discriminate.
Qed.

Lemma cache_entries_are_ledger_successes_witness :
  exists r,
    JsMap.get "#old" (healingHistory (this world_healed_once)) = Some r
    /\ success r = true
    /\ healedLocator r = Some "submit"
    /\ originalLocator r = "#old"
    /\ 1 <= attempts r
    /\ strategy r <> Some "cached".
Proof.
  apply (cache_entries_are_ledger_successes world_healed_once).
  - apply (@reachable_call (call_healLocator late_page "#old" None) new_world).
    apply (reachable_new []).
  - reflexivity.
Defined.

(** X6. In every world that calls lead to, the statistics are in order:
    the cached locators are no more than the successes, the successes no
    more than the total, and the failures are the rest. *)
Theorem getHealingStats_ordered w :
  reachable w ->
  (0 <= cachedLocators (getHealingStats (this w))
   <= successful (getHealingStats (this w)))%Z
  /\ (successful (getHealingStats (this w))
      <= totalAttempts (getHealingStats (this w)))%Z
  /\ (successful (getHealingStats (this w)) + failed (getHealingStats (this w))
      = totalAttempts (getHealingStats (this w)))%Z.
Proof.
  intros Hreach.
  pose proof (reachable_consistent w Hreach) as [Hledger Hcache].
  pose proof (reachable_well_formed w Hreach) as [_ _ Hck Hhk].
  unfold getHealingStats, JsMap.size.
  cbn [totalAttempts successful failed cachedLocators].
  rewrite filter_values_length.
  assert (Hle : length (locatorCache (this w))
                <= length (filter (fun entry => success (snd entry))
                             (healingHistory (this w)))).
  { rewrite <- (length_map fst (locatorCache (this w))).
    rewrite <- (length_map fst (filter _ (healingHistory (this w)))).
    apply NoDup_incl_length; [exact Hck|].
    intros k Hin. apply in_map_iff in Hin as ([k' v] & <- & Hin). cbn [fst].
    apply (In_get _ _ _ _ Hck) in Hin.
    destruct (Hcache k' v Hin) as (r & Hr & Hs & _).
    apply in_map_iff. exists (k', r). split; [reflexivity|].
    apply filter_In. split; [now apply JsMapFacts.get_In | exact Hs]. }
  pose proof (filter_length_le (fun entry => success (snd entry))
                (healingHistory (this w))) as Hle'.
  lia.
Qed.

Lemma getHealingStats_ordered_witness :
  (0 <= cachedLocators (getHealingStats (this (world_of_outcomes 2 5)))
   <= successful (getHealingStats (this (world_of_outcomes 2 5))))%Z
  /\ (successful (getHealingStats (this (world_of_outcomes 2 5)))
      <= totalAttempts (getHealingStats (this (world_of_outcomes 2 5))))%Z
  /\ (successful (getHealingStats (this (world_of_outcomes 2 5)))
      + failed (getHealingStats (this (world_of_outcomes 2 5)))
      = totalAttempts (getHealingStats (this (world_of_outcomes 2 5))))%Z.
Proof.
  apply (getHealingStats_ordered (world_of_outcomes 2 5)).
  apply world_of_outcomes_reachable.
Defined.

(** X7. In every world that calls lead to, each entry of the ledger names
    its own key as original locator and counts at most eight attempts; a
    success counts at least one, carries a healed locator that is not empty
    and the name of a kind other than [xpath], so never ["cached"]; a
    failure carries neither healed locator nor strategy. *)
Theorem ledger_entries_well_shaped w :
  reachable w ->
  forall k r, In (k, r) (healingHistory (this w)) -> ledger_entry_ok k r.
Proof.
  intros Hreach k r Hin.
  pose proof (reachable_consistent w Hreach) as [Hledger _].
  pose proof (reachable_well_formed w Hreach) as [_ _ _ Hhk].
  apply Hledger. now apply In_get.
Qed.

Lemma ledger_entries_well_shaped_witness :
  ledger_entry_ok "#old" (result_of_win "#old" by_testid 1).
Proof.
  apply (ledger_entries_well_shaped world_healed_once).
  - apply (@reachable_call (call_healLocator late_page "#old" None) new_world).
    apply (reachable_new []).
  - left. reflexivity.
Defined.

(** X8. In every world that calls lead to, [exportHealedLocators] gives at
    most one triple for an original locator, as many triples as
    [getHealingStats] counts successes, and each triple carries a healed
    locator that is not empty and the name of one of the kinds that
    synthesis proposes: never ["cached"] and never ["xpath"]. *)
Theorem exportHealedLocators_distinct_and_named w :
  reachable w ->
  exists exports w',
    exportHealedLocators w = (Fulfilled exports, w')
    /\ NoDup (map Exported.original exports)
    /\ Z.of_nat (length exports) = successful (getHealingStats (this w))
    /\ Forall (fun e =>
                 Exported.healed e <> EmptyString
                 /\ exists t, t <> xpath /\ Exported.strategy e = type_name t)
         exports.
Proof.
  intros Hreach.
  pose proof (reachable_consistent w Hreach) as [Hledger _].
  pose proof (reachable_well_formed w Hreach) as [_ Hvalues _ Hhk].
  unfold exportHealedLocators. run.
  do 2 eexists. split; [reflexivity|].
  rewrite fold_export_entry. cbn [app].
  pose proof (export_successes (healingHistory (this w)) Hvalues) as Hall.
  assert (Hok : Forall (fun entry => ledger_entry_ok (fst entry) (snd entry)
                                     /\ success (snd entry) = true)
                  (filter (fun entry => success (snd entry)) (healingHistory (this w)))).
  { apply Forall_forall. intros [k r] Hin. apply filter_In in Hin as [Hin Hs].
    split; [|exact Hs]. cbn. apply Hledger. now apply In_get. }
  pose proof (keys_filter_NoDup _ (fun entry => success (snd entry)) _ Hhk) as Hnd.
  unfold getHealingStats. cbn [successful]. rewrite filter_values_length.
  unfold JsMap.keys in Hnd.
  revert Hall Hok Hnd.
  generalize (filter (fun entry => success (snd entry)) (healingHistory (this w))).
  generalize (flat_map (export_entry []) (healingHistory (this w))).
  induction 1 as [|e entry exports entries (Ho & Hh & Hk) Hrest IH];
    intros Hok Hnd; [repeat split; constructor|].
  inversion Hok as [|? ? [Hentry Hs] Hok']; subst.
  inversion Hnd as [|? ? Hnotin Hnd']; subst.
  destruct (IH Hok' Hnd') as (IH1 & IH2 & IH3).
  cbn [map length]. repeat split.
  - constructor; [|exact IH1].
    rewrite Ho. intros Hin. apply Hnotin.
    clear - Hrest Hin. induction Hrest as [|e' entry' ? ? (Ho' & _) ? IHr];
      simpl in *; [exact Hin|].
    destruct Hin as [Hin|Hin]; [left; congruence | right; auto].
  - cbn [length] in *. lia.
  - constructor; [|exact IH3].
    destruct Hentry as (_ & _ & Hwin & _).
    destruct (Hwin Hs) as (_ & t & healed & Ht & Hst & Hhe & Hne).
    split.
    + rewrite Hhe in Hh. now injection Hh as <-.
    + exists t. split; [exact Ht|]. rewrite Hst in Hk. now injection Hk as <-.
Qed.

Lemma exportHealedLocators_distinct_and_named_witness :
  exists exports w',
    exportHealedLocators (world_of_outcomes 2 5) = (Fulfilled exports, w')
    /\ NoDup (map Exported.original exports)
    /\ Z.of_nat (length exports)
       = successful (getHealingStats (this (world_of_outcomes 2 5)))
    /\ Forall (fun e =>
                 Exported.healed e <> EmptyString
                 /\ exists t, t <> xpath /\ Exported.strategy e = type_name t)
         exports.
Proof.
  apply (exportHealedLocators_distinct_and_named (world_of_outcomes 2 5)).
  apply world_of_outcomes_reachable.
Defined.

(* ===================================================================== *)
(** ** More on [findElement] and [getText] *)
(* ===================================================================== *)

(** X9. [findElement] always starts by waiting for the original locator,
    with the timeout of the options or 5000, whether or not the cache has
    a healed locator for it.  When that wait is answered, the locator
    returned is the original one, the engine is as it was and nothing else
    was asked or logged: neither the cache nor [enableHealing] matters. *)
Theorem findElement_tries_original_first page locator options w :
  exists tail,
    trace (snd (findElement page locator options w))
    = trace w
      ++ Asked (waitFor (first (page_locator locator)) (timeout_of options) "visible")
         :: tail
    /\ (forall u,
          direct_resolution page locator options w = inr u ->
          fst (findElement page locator options w) = Fulfilled (page_locator locator)
          /\ this (snd (findElement page locator options w)) = this w
          /\ tail = []).
Proof.
  destruct (direct_resolution page locator options w) as [reason|u] eqn:Hdirect.
  - destruct (enableHealing_of options) eqn:Hon.
    + destruct (healLocator_returns page locator (context_of options)
                  (world_at_healing locator options w)) as (r & w2 & Hheal).
      assert (Hext : exists events,
                 trace w2 = trace (world_at_healing locator options w) ++ events).
      { destruct (JsMap.get locator
                    (locatorCache (this (world_at_healing locator options w))))
          as [c|] eqn:Hget.
        - rewrite (healLocator_cached page _ (context_of options) _ _ Hget) in Hheal.
          injection Hheal as _ Hw2. subst w2. cbn [trace]. eauto.
        - destruct (healLocator_fresh_events page locator (context_of options) _ Hget)
            as (strategies & w1 & tail & _ & _ & Htrace & _ & _ &
                [(pre & s & post & _ & _ & _ & Hrun)|(_ & Hrun)]);
            rewrite Hrun in Hheal; injection Hheal as _ Hw2; subst w2; cbn [trace];
            rewrite Htrace, <- !app_assoc; eauto. }
      destruct Hext as [events Hext].
      rewrite (findElement_healing _ _ _ _ _ _ _ Hdirect Hon Hheal).
      assert (Htail : exists tail,
                 trace w2
                 = trace w
                   ++ Asked (waitFor (first (page_locator locator)) (timeout_of options)
                               "visible") :: tail).
      { rewrite Hext. unfold world_at_healing, world_after_wait, after. cbn [trace].
        rewrite <- !app_assoc. cbn [app]. eauto. }
      destruct Htail as [tail Htail].
      destruct (healedLocator r) as [healed|];
        [destruct (success r && JsString.truthy healed)|]; cbn [snd after trace];
        rewrite Htail.
      * exists (tail ++ [Logged info ("Using healed locator: " ++ healed)%string]).
        rewrite <- app_assoc. split; [reflexivity | discriminate].
      * exists tail. split; [reflexivity | discriminate].
      * exists tail. split; [reflexivity | discriminate].
    + rewrite (findElement_disabled _ _ _ _ _ Hdirect Hon).
      exists []. split; [reflexivity | discriminate].
  - rewrite (findElement_direct _ _ _ _ _ Hdirect).
    exists []. split; [reflexivity|]. intros u0 _. repeat split.
Qed.

(** X10. After a call of [findElement] that returned a locator through
    healing, every later call for the same locator whose direct resolution
    fails again, with healing enabled, returns the same healed locator from
    the cache, until [clearCache] is called: on any page, after any calls
    of [healLocator], [findElement] and [exportHealedLocators] and after
    anything that happened elsewhere.  The call waits for the original
    locator, logs, and asks the browser nothing else; the engine is as it
    was. *)
Theorem findElement_healed_then_cached page locator options w reason l w1 :
  direct_resolution page locator options w = inl reason ->
  findElement page locator options w = (Fulfilled l, w1) ->
  exists healed,
    l = page_locator healed
    /\ forall w2 page2 options2 reason2,
        later_without_clear w1 w2 ->
        enableHealing_of options2 = true ->
        direct_resolution page2 locator options2 w2 = inl reason2 ->
        findElement page2 locator options2 w2
        = (Fulfilled (page_locator healed),
           {| this := this w2;
              trace := trace w2 ++ cached_find_events locator options2 healed |}).
Proof.
  intros Hdirect Hfind.
  destruct (enableHealing_of options) eqn:Hon;
    [|rewrite (findElement_disabled _ _ _ _ _ Hdirect Hon) in Hfind; discriminate].
  destruct (healLocator_returns page locator (context_of options)
              (world_at_healing locator options w)) as (r & w2 & Hheal).
  rewrite (findElement_healing _ _ _ _ _ _ _ Hdirect Hon Hheal) in Hfind.
  destruct (healedLocator r) as [healed|] eqn:Hh; [|discriminate].
  destruct (success r) eqn:Hs; [|discriminate].
  destruct (JsString.truthy healed) eqn:Htruthy; [|discriminate].
  cbn in Hfind. injection Hfind as <- <-.
  destruct (healLocator_success_cached _ _ _ _ _ _ Hheal Hs) as (healed' & Hh' & Hget).
  rewrite Hh in Hh'. injection Hh' as <-.
  exists healed. split; [reflexivity|].
  intros w3 page2 options2 reason2 Hlater Hon2 Hdirect2.
  assert (Hget3 : JsMap.get locator (locatorCache (this w3)) = Some healed).
  { apply (later_keeps_cache_entry _ _ _ _ Hlater). exact Hget. }
  erewrite (findElement_healing page2 locator options2 w3 reason2 _ _ Hdirect2 Hon2);
    [|apply healLocator_cached; exact Hget3].
  cbn [healedLocator success result_of_cache andb]. rewrite Htruthy.
  unfold after, world_at_healing, world_after_wait, after, cached_find_events.
  cbn [this trace]. rewrite <- !app_assoc. reflexivity.
Qed.

Lemma findElement_healed_then_cached_witness :
  exists healed,
    page_locator "submit" = page_locator healed
    /\ forall w2 page2 options2 reason2,
        later_without_clear (snd (findElement late_page "#old" None new_world)) w2 ->
        enableHealing_of options2 = true ->
        direct_resolution page2 "#old" options2 w2 = inl reason2 ->
        findElement page2 "#old" options2 w2
        = (Fulfilled (page_locator healed),
           {| this := this w2;
              trace := trace w2 ++ cached_find_events "#old" options2 healed |}).
Proof.
  apply (findElement_healed_then_cached late_page "#old" None new_world
           "TimeoutError: Timeout 5000ms exceeded." (page_locator "submit")
           (snd (findElement late_page "#old" None new_world))).
  - reflexivity.
  - vm_compute. reflexivity.
Defined.

Lemma bind_rejected (A B : Type) (c : M A) (k : A -> M B) w e w' :
  c w = (Rejected e, w') -> bind c k w = (Rejected e, w').
Proof. unfold bind. now intros ->. Qed.

(** X11. [getText] throws whatever [findElement] throws, without asking
    for any text.  When [findElement] returns a locator, [getText] reads
    the text of its first element: a text gives that text, no text gives
    the empty string, and a rejection of the read is thrown on, not
    swallowed. *)
Theorem getText_outcome page locator options w :
  match
    findElement page locator options
      (after (Logged info ("Getting text from element: " ++ locator)%string) w)
  with
  | (Rejected e, w1) => getText page locator options w = (Rejected e, w1)
  | (Fulfilled l, w1) =>
      getText page locator options w
      = (match answer_textContent page (trace w1) (first l) with
         | inl reason => Rejected (Rejection reason)
         | inr (Some s) => Fulfilled s
         | inr None => Fulfilled EmptyString
         end,
         after (Asked (textContent (first l))) w1)
  end.
Proof.
  destruct (findElement page locator options
              (after (Logged info ("Getting text from element: " ++ locator)%string) w))
    as [[l|e] w1] eqn:Hfind;
    unfold getText;
    (erewrite bind_fulfilled; [|unfold Logger, emit; reflexivity]).
  - erewrite bind_fulfilled; [|exact Hfind].
    unfold bind, locator_textContent, ask, ret, after.
    destruct (answer_textContent page (trace w1) (first l)) as [reason|[s|]];
      cbn [outcome_of]; try reflexivity.
    now destruct s.
  - erewrite bind_rejected; [reflexivity | exact Hfind].
Qed.

(* ===================================================================== *)
(** ** What one healing changes *)
(* ===================================================================== *)

Lemma has_set_cases (V : Type) k k' (v : V) m :
  JsMap.has k' (JsMap.set k v m) = String.eqb k' k || JsMap.has k' m.
Proof.
  unfold JsMap.has. rewrite get_set_cases.
  now destruct (String.eqb k' k).
Qed.

(** X12. [healLocator] never throws, whatever the page answers or
    rejects.  It only adds events to the trace, and in the engine it
    touches the entries of its own locator alone: every other locator
    keeps its cache entry, no locator loses its cache entry or its ledger
    entry, and a call that returns a failure leaves the whole cache as it
    was. *)
Theorem healLocator_touches_its_key_only page originalLocator elementContext w :
  exists r w' events,
    healLocator page originalLocator elementContext w = (Fulfilled r, w')
    /\ trace w' = trace w ++ events
    /\ (forall k, k <> originalLocator ->
          JsMap.get k (locatorCache (this w')) = JsMap.get k (locatorCache (this w)))
    /\ (forall k, JsMap.has k (locatorCache (this w)) = true ->
          JsMap.has k (locatorCache (this w')) = true)
    /\ (forall k, JsMap.has k (healingHistory (this w)) = true ->
          JsMap.has k (healingHistory (this w')) = true)
    /\ (success r = false -> locatorCache (this w') = locatorCache (this w)).
Proof.
  destruct (JsMap.get originalLocator (locatorCache (this w))) as [c|] eqn:Hget.
  - rewrite (healLocator_cached page _ elementContext _ _ Hget).
    do 3 eexists. split; [reflexivity|]. cbn [this trace]. repeat split; auto.
  - destruct (healLocator_fresh_events page originalLocator elementContext w Hget)
      as (strategies & w1 & tail & _ & _ & Htrace & _ & _ &
          [(pre & s & post & _ & _ & _ & Hrun)|(_ & Hrun)]);
      rewrite Hrun; do 3 eexists; (split; [reflexivity|]);
      cbn [this trace locatorCache healingHistory];
      (split; [rewrite Htrace, <- !app_assoc; reflexivity|]).
    + repeat split.
      * intros k Hk. now apply JsMapFacts.get_set_other.
      * intros k Hk. rewrite has_set_cases, Hk. apply orb_true_r.
      * intros k Hk. rewrite has_set_cases, Hk. apply orb_true_r.
      * discriminate.
    + repeat split; auto.
      intros k Hk. rewrite has_set_cases, Hk. apply orb_true_r.
Qed.

(** X13. What [healLocator] returns: a result that names the locator of
    the call and counts at most eight attempts; it is marked ["cached"]
    exactly when the locator had a cache entry, and then, and only then
    among the successes, counts no attempt; a failure carries neither
    healed locator nor strategy. *)
Theorem healLocator_result_shape page locator elementContext w :
  exists r w',
    healLocator page locator elementContext w = (Fulfilled r, w')
    /\ originalLocator r = locator
    /\ attempts r <= 8
    /\ (strategy r = Some "cached"
        <-> JsMap.has locator (locatorCache (this w)) = true)
    /\ (success r = true ->
        (attempts r = 0 <-> JsMap.has locator (locatorCache (this w)) = true))
    /\ (success r = false -> healedLocator r = None /\ strategy r = None).
Proof.
  unfold JsMap.has.
  destruct (JsMap.get locator (locatorCache (this w))) as [c|] eqn:Hget.
  - rewrite (healLocator_cached page _ elementContext _ _ Hget).
    do 2 eexists. split; [reflexivity|]. cbn.
    repeat split; auto; try lia; discriminate.
  - destruct (healLocator_fresh page locator elementContext w Hget)
      as (strategies & w1 & Hgen & _ &
          [(pre & s & post & Hsplit & _ & _ & tr & Hrun)|(_ & tr & Hrun)]);
      rewrite Hrun; do 2 eexists; (split; [reflexivity|]); cbn;
      apply generateAlternativeStrategies_shape in Hgen as (_ & Hlen & _).
    + subst strategies. rewrite length_app in Hlen. simpl in Hlen.
      repeat split; auto; try lia; try discriminate.
      destruct (type s); discriminate.
    + repeat split; auto; discriminate.
Qed.

(** X14. How the sizes move in one call of [healLocator].  The ledger
    gains one entry when the locator had neither a cache entry nor a ledger
    entry and keeps its size otherwise, so the total of the statistics
    counts locators, not calls.  The cache gains one entry when the call
    returns a success that was not served from the cache and keeps its size
    otherwise. *)
Theorem healLocator_sizes page originalLocator elementContext w :
  exists r w',
    healLocator page originalLocator elementContext w = (Fulfilled r, w')
    /\ JsMap.size (healingHistory (this w'))
       = (if JsMap.has originalLocator (locatorCache (this w))
             || JsMap.has originalLocator (healingHistory (this w))
          then JsMap.size (healingHistory (this w))
          else S (JsMap.size (healingHistory (this w))))
    /\ JsMap.size (locatorCache (this w'))
       = (if success r && negb (JsMap.has originalLocator (locatorCache (this w)))
          then S (JsMap.size (locatorCache (this w)))
          else JsMap.size (locatorCache (this w))).
Proof.
  destruct (JsMap.get originalLocator (locatorCache (this w))) as [c|] eqn:Hget.
  - assert (Hhas : JsMap.has originalLocator (locatorCache (this w)) = true)
      by (unfold JsMap.has; now rewrite Hget).
    rewrite (healLocator_cached page _ elementContext _ _ Hget).
    do 2 eexists. split; [reflexivity|].
    rewrite Hhas. cbn. auto.
  - assert (Hhas : JsMap.has originalLocator (locatorCache (this w)) = false)
      by (unfold JsMap.has; now rewrite Hget).
    destruct (healLocator_fresh page originalLocator elementContext w Hget)
      as (strategies & w1 & _ & _ &
          [(pre & s & post & _ & _ & _ & tr & Hrun)|(_ & tr & Hrun)]);
      rewrite Hrun; do 2 eexists; (split; [reflexivity|]);
      cbn [this locatorCache healingHistory success result_of_win result_of_exhaustion];
      rewrite ?JsMapFacts.size_set, Hhas; cbn [orb andb negb];
      split; reflexivity.
Qed.

(* ===================================================================== *)
(** ** Failures *)
(* ===================================================================== *)

(** X15. In every world that calls lead to, when [findElement] throws an
    [Error] of its own making, the message is "Could not heal locator: "
    followed by the locator, the ledger then holds a failure under that
    locator, and the cache has no entry for it. *)
Theorem findElement_failure_is_recorded page locator options w message :
  reachable w ->
  fst (findElement page locator options w) = Rejected (NewError message) ->
  message = ("Could not heal locator: " ++ locator)%string
  /\ JsMap.get locator (locatorCache (this (snd (findElement page locator options w))))
     = None
  /\ exists r,
      JsMap.get locator (healingHistory (this (snd (findElement page locator options w))))
      = Some r
      /\ success r = false.
Proof.
  intros Hreach Hthrown. apply reachable_well_formed in Hreach.
  destruct (direct_resolution page locator options w) as [reason|u] eqn:Hdirect;
    [|rewrite (findElement_direct _ _ _ _ _ Hdirect) in Hthrown; discriminate].
  destruct (enableHealing_of options) eqn:Hon;
    [|rewrite (findElement_disabled _ _ _ _ _ Hdirect Hon) in Hthrown; discriminate].
  destruct (healLocator_well_formed page locator (context_of options)
              (world_at_healing locator options w) Hreach)
    as (r & w2 & Hheal & Hr & _).
  rewrite (findElement_healing _ _ _ _ _ _ _ Hdirect Hon Hheal) in *.
  destruct (success r) eqn:Hs.
  - destruct (Hr Hs) as (healed & kind & Hh & Hne & _).
    rewrite Hh in Hthrown. apply truthy_nonempty in Hne. rewrite Hne in Hthrown.
    discriminate.
  - assert (Hworld :
             match healedLocator r with
             | Some healed =>
                 if false && JsString.truthy healed
                 then (Fulfilled (page_locator healed),
                       after (Logged info ("Using healed locator: " ++ healed)%string) w2)
                 else (Rejected (NewError ("Could not heal locator: " ++ locator)%string), w2)
             | None => (Rejected (NewError ("Could not heal locator: " ++ locator)%string), w2)
             end
             = (Rejected (NewError ("Could not heal locator: " ++ locator)%string), w2)).
    { destruct (healedLocator r); reflexivity. }
    rewrite Hworld in *. cbn [fst snd] in *.
    split; [now injection Hthrown as <-|].
    destruct (JsMap.get locator (locatorCache (this (world_at_healing locator options w))))
      as [c|] eqn:Hget.
    + rewrite (healLocator_cached page _ (context_of options) _ _ Hget) in Hheal.
      injection Hheal as Hr' _. subst r. discriminate.
    + destruct (healLocator_fresh page locator (context_of options) _ Hget)
        as (strategies & w1 & _ & _ &
            [(pre & s & post & _ & _ & _ & tr & Hrun)|(_ & tr & Hrun)]);
        rewrite Hrun in Hheal; injection Hheal as Hr' Hw2; subst r w2;
        [discriminate|].
      cbn [this locatorCache healingHistory]. split; [exact Hget|].
      eexists. split; [apply JsMapFacts.get_set_same | reflexivity].
Qed.

Lemma findElement_failure_is_recorded_witness :
  ("Could not heal locator: #old" = "Could not heal locator: " ++ "#old")%string
  /\ JsMap.get "#old"
       (locatorCache (this (snd (findElement stubborn_page "#old" None new_world))))
     = None
  /\ exists r,
      JsMap.get "#old"
        (healingHistory (this (snd (findElement stubborn_page "#old" None new_world))))
      = Some r
      /\ success r = false.
Proof.
  apply (findElement_failure_is_recorded stubborn_page "#old" None new_world
           "Could not heal locator: #old").
  - apply (reachable_new []).
  - vm_compute. reflexivity.
Defined.

(** X16. A failure is not cached.  After a call of [healLocator] that
    returned a failure, the next call for the same locator, on any page and
    after anything that happened elsewhere, starts synthesis anew: after
    its log line it asks the browser whether the original locator is
    visible. *)
Theorem healLocator_failure_is_retried page locator elementContext w r w' :
  healLocator page locator elementContext w = (Fulfilled r, w') ->
  success r = false ->
  forall page2 context2 events,
  exists r2 w2 tail,
    healLocator page2 locator context2 {| this := this w'; trace := trace w' ++ events |}
    = (Fulfilled r2, w2)
    /\ trace w2 = (trace w' ++ events) ++ synthesis_start locator ++ tail
    /\ strategy r2 <> Some "cached".
Proof.
  intros Hrun Hs page2 context2 events.
  assert (Hnone : JsMap.get locator (locatorCache (this w')) = None).
  { destruct (JsMap.get locator (locatorCache (this w))) as [c|] eqn:Hget.
    - rewrite (healLocator_cached page _ elementContext _ _ Hget) in Hrun.
      injection Hrun as Hr _. subst r. discriminate.
    - destruct (healLocator_fresh page locator elementContext w Hget)
        as (strategies & w1 & _ & _ &
            [(pre & s & post & _ & _ & _ & tr & Hrun')|(_ & tr & Hrun')]);
        rewrite Hrun' in Hrun; injection Hrun as Hr Hw; subst r w';
        [discriminate | exact Hget]. }
  destruct (healLocator_fresh_events page2 locator context2
              {| this := this w'; trace := trace w' ++ events |} Hnone)
    as (strategies & w1 & tail & _ & _ & Htrace & _ & _ &
        [(pre & s & post & _ & _ & _ & Hrun2)|(_ & Hrun2)]);
    rewrite Hrun2; do 3 eexists; (split; [reflexivity|]); cbn [trace] in *;
    rewrite Htrace, <- !app_assoc.
  - split; [reflexivity|]. cbn. destruct (type s); discriminate.
  - split; [reflexivity|]. cbn. discriminate.
Qed.

Lemma healLocator_failure_is_retried_witness :
  exists r2 w2 tail,
    healLocator late_page "#old" None
      {| this := this (snd (healLocator stubborn_page "#old" None new_world));
         trace := trace (snd (healLocator stubborn_page "#old" None new_world)) ++ [] |}
    = (Fulfilled r2, w2)
    /\ trace w2
       = (trace (snd (healLocator stubborn_page "#old" None new_world)) ++ [])
         ++ synthesis_start "#old" ++ tail
    /\ strategy r2 <> Some "cached".
Proof.
  apply (healLocator_failure_is_retried stubborn_page "#old" None new_world
           (result_of_exhaustion "#old" 3)
           (snd (healLocator stubborn_page "#old" None new_world))).
  - vm_compute. reflexivity.
  - reflexivity.
Defined.

(* ===================================================================== *)
(** ** Counting *)
(* ===================================================================== *)

Lemma filter_probe_probes strategies :
  filter is_probe (map probe strategies) = map probe strategies.
Proof.
  induction strategies as [|s rest IH]; simpl; [reflexivity|]. now rewrite IH.
Qed.

(** X17. The attempts of a result count the visibility probes of the
    call: among the events that a call of [healLocator] adds to the trace,
    the visibility checks with a timeout are as many as the attempts that
    its result reports. *)
Theorem healLocator_attempts_count_probes page locator elementContext w :
  exists r w' events,
    healLocator page locator elementContext w = (Fulfilled r, w')
    /\ trace w' = trace w ++ events
    /\ length (filter is_probe events) = attempts r.
Proof.
  destruct (JsMap.get locator (locatorCache (this w))) as [c|] eqn:Hget.
  - rewrite (healLocator_cached page _ elementContext _ _ Hget).
    do 3 eexists. split; [reflexivity|]. split; reflexivity.
  - destruct (healLocator_fresh_events page locator elementContext w Hget)
      as (strategies & w1 & tail & _ & _ & Htrace & _ & Hprobes &
          [(pre & s & post & _ & _ & _ & Hrun)|(_ & Hrun)]);
      rewrite Hrun; do 3 eexists; (split; [reflexivity|]); cbn [trace attempts];
      (split; [rewrite Htrace, <- !app_assoc; reflexivity|]);
      unfold synthesis_start; cbn [app filter is_probe];
      rewrite !filter_app, Hprobes, filter_probe_probes; cbn [filter is_probe app];
      rewrite length_app, length_map; cbn [length result_of_win result_of_exhaustion attempts];
      rewrite ?length_app; cbn [length]; lia.
Qed.

(** X18. Synthesis never throws, never logs and never touches the engine.
    It asks the browser at most nine questions, the visibility check of the
    original locator first.  It returns at most eight strategies, in
    ascending order of priorities between 1 and 8, each with a value that
    is not empty, and none of the kind [xpath]. *)
Theorem generateAlternativeStrategies_bounded page originalLocator context w :
  exists strategies w' tail,
    generateAlternativeStrategies page originalLocator context w
    = (Fulfilled strategies, w')
    /\ this w' = this w
    /\ trace w'
       = trace w ++ Asked (isVisible (first (page_locator originalLocator)) None) :: tail
    /\ length tail <= 8
    /\ forallb is_query tail = true
    /\ length strategies <= 8
    /\ ascending strategies
    /\ Forall (fun s => value s <> EmptyString
                        /\ type s <> xpath
                        /\ (1 <= priority s <= 8)%Z) strategies.
Proof.
  destruct (generateAlternativeStrategies_events page originalLocator context w)
    as (strategies & tail & Hgen & Hlen & Hq & _ & _).
  exists strategies. eexists. exists tail.
  split; [exact Hgen|].
  apply generateAlternativeStrategies_shape in Hgen
    as (_ & Hn & Hasc & Hv & Ht & Hp).
  repeat split; auto.
  rewrite Forall_forall in *. intros s Hin. auto.
Qed.

(* ===================================================================== *)
(** ** Healing needs the original locator *)
(* ===================================================================== *)

(** X19. [findElement] can heal only what the original locator still
    finds.  When the direct resolution fails, healing is enabled, the cache
    has no entry for the locator and the visibility check that synthesis
    makes on the original locator does not answer [true], no strategy is
    tried: [findElement] throws "Could not heal locator", and the ledger
    holds a failure with 0 attempts under the locator. *)
Theorem findElement_needs_the_original page locator options w reason :
  direct_resolution page locator options w = inl reason ->
  enableHealing_of options = true ->
  JsMap.get locator (locatorCache (this w)) = None ->
  answer_isVisible page (trace (world_at_synthesis locator options w))
    (first (page_locator locator)) None <> inr true ->
  findElement page locator options w
  = (Rejected (NewError ("Could not heal locator: " ++ locator)%string),
     {| this :=
          {| healingHistory :=
               JsMap.set locator (result_of_exhaustion locator 0)
                 (healingHistory (this w));
             locatorCache := locatorCache (this w) |};
        trace :=
          trace (world_at_healing locator options w)
          ++ synthesis_start locator
          ++ [Logged error ("Failed to heal locator after 0 attempts: "
                            ++ locator)%string] |}).
Proof.
  intros Hdirect Hon Hget Hvis.
  erewrite (findElement_healing page locator options w reason _ _ Hdirect Hon);
    [|apply healLocator_unseen; [exact Hget | exact Hvis]].
  reflexivity.
Qed.

Lemma findElement_needs_the_original_witness :
  findElement empty_page "#gone" None new_world
  = (Rejected (NewError ("Could not heal locator: " ++ "#gone")%string),
     {| this :=
          {| healingHistory :=
               JsMap.set "#gone" (result_of_exhaustion "#gone" 0)
                 (healingHistory (this new_world));
             locatorCache := locatorCache (this new_world) |};
        trace :=
          trace (world_at_healing "#gone" None new_world)
          ++ synthesis_start "#gone"
          ++ [Logged error ("Failed to heal locator after 0 attempts: " ++ "#gone")%string] |}).
Proof.
  apply (findElement_needs_the_original empty_page "#gone" None new_world
           "TimeoutError: Timeout 5000ms exceeded.").
  - reflexivity.
  - reflexivity.
  - reflexivity.
  - discriminate.
Defined.

(* ===================================================================== *)
(** ** From a healing to the export *)
(* ===================================================================== *)

(** The export holds the triple of every success of the ledger. *)
Lemma export_holds_success entries k r t healed :
  In (k, r) entries ->
  success r = true ->
  healedLocator r = Some healed -> healed <> EmptyString ->
  strategy r = Some (type_name t) ->
  In (exported_triple k healed t) (flat_map (export_entry []) entries).
Proof.
  intros Hin Hs Hh Hne Hk.
  apply in_flat_map. exists (k, r). split; [exact Hin|].
  unfold export_entry. rewrite Hh, Hk, Hs.
  apply truthy_nonempty in Hne. rewrite Hne.
  pose proof (type_name_nonempty t) as Ht. apply truthy_nonempty in Ht. rewrite Ht.
  now left.
Qed.

(** X20. What [healLocator] reports healed is what the export gives.  In
    every world that calls lead to, after a call of [healLocator] that
    returned a success, the ledger holds under the locator of the call a
    success with the healed locator of the result, and
    [exportHealedLocators] holds the triple of that entry: the locator, the
    healed locator and the strategy of the entry.  For a success of the
    trial loop the entry is the result itself; for one served from the
    cache it is the entry that the ledger already had before the call,
    under a locator that the cache already gave that healed locator. *)
Theorem healed_locator_is_exported page locator elementContext w r w' :
  reachable w ->
  healLocator page locator elementContext w = (Fulfilled r, w') ->
  success r = true ->
  exists healed t r0 exports w'',
    healedLocator r = Some healed
    /\ JsMap.get locator (healingHistory (this w')) = Some r0
    /\ success r0 = true
    /\ healedLocator r0 = Some healed
    /\ strategy r0 = Some (type_name t)
    /\ exportHealedLocators w' = (Fulfilled exports, w'')
    /\ In (exported_triple locator healed t) exports
    /\ (strategy r <> Some "cached" -> r0 = r)
    /\ (strategy r = Some "cached" ->
        JsMap.get locator (healingHistory (this w)) = Some r0
        /\ JsMap.get locator (locatorCache (this w)) = Some healed).
Proof.
  intros Hreach Hrun Hs.
  assert (Hreach' : reachable w').
  { replace w' with (run_call (call_healLocator page locator elementContext) w)
      by (cbn [run_call]; now rewrite Hrun).
    now constructor. }
  destruct (healLocator_success_cached _ _ _ _ _ _ Hrun Hs) as (healed & Hh & Hget).
  destruct (reachable_consistent w' Hreach') as [Hledger Hcache].
  destruct (Hcache locator healed Hget) as (r0 & Hr0 & Hs0 & Hh0).
  destruct (Hledger locator r0 Hr0) as (_ & _ & Hwin & _).
  destruct (Hwin Hs0) as (_ & t & healed0 & _ & Hk0 & Hh0' & Hne).
  rewrite Hh0 in Hh0'. injection Hh0' as <-.
  exists healed, t, r0. do 2 eexists.
  split; [exact Hh|]. split; [exact Hr0|]. split; [exact Hs0|].
  split; [exact Hh0|]. split; [exact Hk0|].
  split; [unfold exportHealedLocators; run; reflexivity|].
  split.
  - rewrite fold_export_entry. cbn [app].
    eapply export_holds_success; eauto. now apply JsMapFacts.get_In.
  - destruct (JsMap.get locator (locatorCache (this w))) as [c|] eqn:Hc.
    + rewrite (healLocator_cached page _ elementContext _ _ Hc) in Hrun.
      injection Hrun as Hr Hw. subst r w'. cbn [this] in *.
      split; [intros Hfresh; now elim Hfresh|].
      intros _. split; [exact Hr0|]. cbn in Hh. now injection Hh as ->.
    + destruct (healLocator_fresh page locator elementContext w Hc)
        as (strategies & w1 & _ & _ &
            [(pre & s & post & _ & _ & _ & tr & Hrun')|(_ & tr & Hrun')]);
        rewrite Hrun' in Hrun; injection Hrun as Hr Hw; subst r w';
        [|discriminate].
      cbn [this healingHistory] in Hr0. rewrite JsMapFacts.get_set_same in Hr0.
      injection Hr0 as <-.
      split; [reflexivity|]. cbn. destruct (type s); discriminate.
Qed.

Lemma healed_locator_is_exported_witness :
  exists healed t r0 exports w'',
    healedLocator (result_of_cache "#old" "submit") = Some healed
    /\ JsMap.get "#old"
         (healingHistory (this (snd (healLocator empty_page "#old" None world_healed_once))))
       = Some r0
    /\ success r0 = true
    /\ healedLocator r0 = Some healed
    /\ strategy r0 = Some (type_name t)
    /\ exportHealedLocators (snd (healLocator empty_page "#old" None world_healed_once))
       = (Fulfilled exports, w'')
    /\ In (exported_triple "#old" healed t) exports
    /\ (strategy (result_of_cache "#old" "submit") <> Some "cached" ->
        r0 = result_of_cache "#old" "submit")
    /\ (strategy (result_of_cache "#old" "submit") = Some "cached" ->
        JsMap.get "#old" (healingHistory (this world_healed_once)) = Some r0
        /\ JsMap.get "#old" (locatorCache (this world_healed_once)) = Some healed).
Proof.
  apply (healed_locator_is_exported empty_page "#old" None world_healed_once
           (result_of_cache "#old" "submit")
           (snd (healLocator empty_page "#old" None world_healed_once))).
  - apply (@reachable_call (call_healLocator late_page "#old" None) new_world).
    apply (reachable_new []).
  - vm_compute. reflexivity.
  - reflexivity.
Defined.

(* ===================================================================== *)
(** ** Synthesis and the table of the specification *)
(* ===================================================================== *)

(** The reads of synthesis return what the page answers to each of them,
    [null] for a read that is rejected. *)
Lemma read_attributes_answers page element w :
  read_attributes page element w
  = (Fulfilled (element_attributes page element (trace w)),
     {| this := this w; trace := trace w ++ attribute_reads element |}).
Proof.
  unfold read_attributes, locator_getAttribute, locator_textContent.
  repeat (erewrite bind_fulfilled; [|apply catch_ask]).
  unfold ret, after, element_attributes, or_null; cbn [this trace firstn attribute_reads].
  rewrite <- !app_assoc. cbn [app]. rewrite app_nil_r.
  reflexivity.
Qed.

(** For a visible element, synthesis returns the rows of the attributes
    that the page gives. *)
Lemma generateAlternativeStrategies_answers page originalLocator context w :
  answer_isVisible page (trace w) (first (page_locator originalLocator)) None = inr true ->
  generateAlternativeStrategies page originalLocator context w
  = (Fulfilled
       (pushed_strategies
          (element_attributes page (first (page_locator originalLocator))
             (trace_at_reads originalLocator w))),
     {| this := this w;
        trace := trace_at_reads originalLocator w
                 ++ attribute_reads (first (page_locator originalLocator)) |}).
Proof.
  intros Hvis.
  unfold generateAlternativeStrategies, locator_isVisible.
  erewrite bind_fulfilled; [|apply catch_ask].
  rewrite Hvis.
  erewrite bind_fulfilled; [|apply read_attributes_answers].
  unfold ret. now rewrite sorted_build_strategies.
Qed.

(** Where the space alone separates, the pieces between white space are
    the pieces between spaces. *)
Lemma split_where_spaces v :
  spaces_only v = true ->
  split_where is_ascii_whitespace v = JsString.split " "%char v.
Proof.
  induction v as [|c rest IH]; simpl; [reflexivity|].
  intros H. apply andb_prop in H as [Hc Hrest].
  apply Bool.eqb_prop in Hc. rewrite Hc, (IH Hrest). reflexivity.
Qed.

Lemma pushed_classes_class_list o :
  class_spaces_only o = true -> pushed_classes o = class_list o.
Proof.
  destruct o as [v|]; [|reflexivity]. simpl. intros H.
  unfold pushed_classes, class_list. now rewrite split_where_spaces.
Qed.

(** The rows of the source are the table of the specification wherever
    the two agree on the classes. *)
Lemma pushed_strategies_table a :
  pushed_classes (attr_class a) = class_list (attr_class a) ->
  pushed_strategies a = table_strategies a.
Proof.
  intros Hclasses.
  unfold pushed_strategies, pushed_rows, table_strategies, table.
  rewrite Hclasses.
  destruct (present (attr_data_testid a)), (present (attr_id a)),
    (present (attr_name a)), (present (attr_aria_label a)),
    (present (attr_placeholder a)), (present (attr_role a)),
    (non_blank_text (text_content a)), (class_list (attr_class a));
    reflexivity.
Qed.

(** C2. The class row fails where white space other than the space
    separates classes.  For the element with the test id ["submit"], the id
    ["real-id"] and the classes [btn] and [primary] separated by a
    tabulation, the table gives the test id, the id selector and the class
    selector [.btn.primary]; [generateAlternativeStrategies] returns a
    third strategy whose value keeps the tabulation between the two names,
    because it splits the class attribute on the space alone.  Likewise, a
    class attribute of one tabulation has no class and no line in the
    table, and the pushes of the source make a strategy of it. *)
Theorem generateAlternativeStrategies_class_separators :
  fst (generateAlternativeStrategies tabbed_page "#old" None new_world)
  = Fulfilled
      [ by_testid; by_id;
        {| type := css;
           value := (".btn" ++ String tab "primary")%string;
           priority := 8 |} ]
  /\ table_strategies
       (element_attributes tabbed_page (first (page_locator "#old"))
          (trace_at_reads "#old" new_world))
     = [ by_testid; by_id; by_classes ]
  /\ fst (generateAlternativeStrategies tabbed_page "#old" None new_world)
     <> Fulfilled
          (table_strategies
             (element_attributes tabbed_page (first (page_locator "#old"))
                (trace_at_reads "#old" new_world)))
  /\ table_strategies
       {| attr_id := None; attr_class := Some (String tab EmptyString);
          attr_name := None; attr_data_testid := None; attr_aria_label := None;
          attr_placeholder := None; text_content := None; attr_role := None |}
     = []
  /\ build_strategies
       {| attr_id := None; attr_class := Some (String tab EmptyString);
          attr_name := None; attr_data_testid := None; attr_aria_label := None;
          attr_placeholder := None; text_content := None; attr_role := None |}
     = [ {| type := css; value := String "."%char (String tab EmptyString);
            priority := 8 |} ].
Proof.
  split; [vm_compute; reflexivity|].
  split; [vm_compute; reflexivity|].
  split; [vm_compute; discriminate|].
  split; vm_compute; reflexivity.
Qed.

(** X21. Apart from that, synthesis follows the table.  When the element
    that the original locator finds is visible and no white space but the
    space separates the classes of its class attribute, the strategies
    returned are those of the table for the attributes that the page gives
    to the eight reads: one for each line whose attribute is present and
    not empty, with the kind, the value and the priority of the line, in
    ascending order of priority.  For an element with a test id, an id and
    classes and nothing else, they are the test id, the id selector and the
    class selector, in that order. *)
Theorem generateAlternativeStrategies_table page originalLocator context w :
  answer_isVisible page (trace w) (first (page_locator originalLocator)) None = inr true ->
  class_spaces_only
    (attr_class
       (element_attributes page (first (page_locator originalLocator))
          (trace_at_reads originalLocator w))) = true ->
  generateAlternativeStrategies page originalLocator context w
  = (Fulfilled
       (table_strategies
          (element_attributes page (first (page_locator originalLocator))
             (trace_at_reads originalLocator w))),
     {| this := this w;
        trace := trace_at_reads originalLocator w
                 ++ attribute_reads (first (page_locator originalLocator)) |})
  /\ ascending
       (table_strategies
          (element_attributes page (first (page_locator originalLocator))
             (trace_at_reads originalLocator w)))
  /\ (forall testid id classes,
        table
          (element_attributes page (first (page_locator originalLocator))
             (trace_at_reads originalLocator w))
        = [ (Some testid, testId, 1%Z);
            (Some ("#" ++ id)%string, css, 2%Z);
            (None, css, 3%Z); (None, label, 4%Z); (None, placeholder, 5%Z);
            (None, role, 6%Z); (None, text, 7%Z);
            (Some ("." ++ JsString.join "." classes)%string, css, 8%Z) ] ->
        fst (generateAlternativeStrategies page originalLocator context w)
        = Fulfilled
            [ {| type := testId; value := testid; priority := 1 |};
              {| type := css; value := ("#" ++ id)%string; priority := 2 |};
              {| type := css;
                 value := ("." ++ JsString.join "." classes)%string;
                 priority := 8 |} ]).
Proof.
  intros Hvis Hspaces.
  pose proof (pushed_strategies_table _ (pushed_classes_class_list _ Hspaces)) as Htable.
  assert (Hrun := generateAlternativeStrategies_answers page originalLocator context w Hvis).
  rewrite Htable in Hrun.
  split; [exact Hrun|]. split.
  - rewrite <- Htable. apply pushed_strategies_ascending.
  - intros testid id classes Hlines. rewrite Hrun. cbn [fst].
    unfold table_strategies. rewrite Hlines. reflexivity.
Qed.

Lemma generateAlternativeStrategies_table_witness :
  fst (generateAlternativeStrategies late_page "#old" None new_world)
  = Fulfilled [ by_testid; by_id; by_classes ].
Proof.
  destruct (generateAlternativeStrategies_table late_page "#old" None new_world
              eq_refl eq_refl) as (_ & _ & Hthree).
  apply (Hthree "submit" "real-id" ["btn"; "primary"]). reflexivity.
Defined.

(* ===================================================================== *)
(** ** The export and its guard *)
(* ===================================================================== *)

(** The export takes the entries that pass its guard, each as one triple,
    in their order. *)
Lemma export_exportable entries :
  Forall2 exported_from
    (flat_map (export_entry []) entries)
    (filter (fun entry => exportable (snd entry)) entries).
Proof.
  induction entries as [|[k r] rest IH]; simpl; [constructor|].
  unfold exportable, filled.
  destruct (healedLocator r) as [healed|] eqn:Hh;
    [destruct (strategy r) as [kind|] eqn:Hk|].
  - destruct (success r && JsString.truthy healed && JsString.truthy kind); cbn;
      [|exact IH].
    constructor; [|exact IH].
    unfold exported_from. cbn. auto.
  - rewrite andb_false_r. exact IH.
  - rewrite andb_false_r. cbn. exact IH.
Qed.

(** C8, as stated, fails.  The fields [healedLocator] and [strategy] of a
    result are optional, and a ledger can hold successes without them;
    of the four successes of this ledger the export gives the one that has
    both. *)
Lemma export_drops_bare_successes :
  ~ export_holds_every_success world_of_bare_successes
  /\ fst (exportHealedLocators world_of_bare_successes)
     = Fulfilled [ {| Exported.original := "#a"; Exported.healed := "#a2";
                      Exported.strategy := "css" |} ].
Proof.
  split; [|vm_compute; reflexivity].
  intros (exports & w' & Hrun & Hall).
  vm_compute in Hrun. injection Hrun as <- _.
  vm_compute in Hall.
  inversion Hall as [|? ? ? ? _ Hrest]; subst.
  inversion Hrest.
Qed.

(** C8, amended.  For every ledger, [exportHealedLocators] returns one
    triple for each entry that is a success and has a healed locator and a
    strategy, both present and not empty, with the key of the entry as
    original and its recorded healed locator and strategy; it returns
    nothing for any other entry, a failure or a success that lacks one of
    the two.  The triples come in the order of the entries in the ledger,
    and the engine is as it was. *)
Theorem exportHealedLocators_guarded w :
  exists exports w',
    exportHealedLocators w = (Fulfilled exports, w')
    /\ this w' = this w
    /\ Forall2 exported_from exports
         (filter (fun entry => exportable (snd entry)) (healingHistory (this w))).
Proof.
  unfold exportHealedLocators. run.
  do 2 eexists. split; [reflexivity|]. split; [reflexivity|].
  rewrite fold_export_entry. cbn [app].
  apply export_exportable.
Qed.
